(** * The chat widget and its stub responder

    A shallow embedding of the two source files of the repository:

    - the route handler [GET] of the chat endpoint (the Responder), a pure
      function from the [message] query parameter to a JSON response;
    - the React component [Chatbot] (the Widget): its three pieces of state,
      [addMessage], the asynchronous [handleSend], [handleKeyDown], the
      [disabled] attributes of the two controls and the rows it renders.

    JavaScript strings are sequences of 16-bit code units. The strings
    modelled here are those of code units below 256 and of unpaired
    surrogates; on them [trim], [toLowerCase] and [encodeURIComponent] are
    written out as ECMAScript defines them, the [URIError] of the last
    included. *)

From Stdlib Require Import ZArith List Ascii Bool Lia.
Import ListNotations.

Local Open Scope Z_scope.

(** ** The JavaScript built-ins the two files call *)

Module JS.

(** A code unit: one below 256, or the low surrogate U+DC00 + 512 [b9] +
    256 [b8] + [lo]. No high surrogate is modelled, so a surrogate is never
    half of a pair: every [Lone] is what ECMAScript calls an unpaired
    surrogate. *)
Inductive unit16 : Type :=
| Latin1 (c : ascii)
| Lone (b9 b8 : bool) (lo : ascii).

Inductive string : Type :=
| EmptyString
| String (u : unit16) (s : string).

(** String literals denote their bytes as code units below 256. *)
Definition of_bytes (bs : list Byte.byte) : string :=
  fold_right (fun b s => String (Latin1 (ascii_of_byte b)) s) EmptyString bs.

Fixpoint to_bytes (s : string) : option (list Byte.byte) :=
  match s with
  | EmptyString => Some []
  | String (Latin1 c) s' => option_map (cons (byte_of_ascii c)) (to_bytes s')
  | String (Lone _ _ _) _ => None
  end.

Declare Scope js_scope.
Delimit Scope js_scope with js.
Bind Scope js_scope with string.
String Notation string of_bytes to_bytes : js_scope.

Definition code (u : unit16) : N :=
  match u with
  | Latin1 c => N_of_ascii c
  | Lone b9 b8 lo =>
      (56320 + (if b9 then 512 else 0) + (if b8 then 256 else 0) + N_of_ascii lo)%N
  end.

(** Equality of code units, [===] on strings, [length] and [+]. *)
Module String.

Definition eqb_unit (u v : unit16) : bool :=
  match u, v with
  | Latin1 c, Latin1 d => Ascii.eqb c d
  | Lone b9 b8 lo, Lone b9' b8' lo' => Bool.eqb b9 b9' && Bool.eqb b8 b8' && Ascii.eqb lo lo'
  | _, _ => false
  end.

Fixpoint eqb (s1 s2 : string) : bool :=
  match s1, s2 with
  | EmptyString, EmptyString => true
  | String u s1', String v s2' => eqb_unit u v && eqb s1' s2'
  | _, _ => false
  end.

Fixpoint length (s : string) : nat :=
  match s with
  | EmptyString => O
  | String _ s' => S (length s')
  end.

Fixpoint append (s1 s2 : string) : string :=
  match s1 with
  | EmptyString => s2
  | String u s1' => String u (append s1' s2)
  end.

End String.

Infix "++" := String.append (right associativity, at level 60) : js_scope.

(** A property read in JavaScript: a string, or [undefined] when the
    property is absent. *)
Inductive value : Type :=
| Undefined
| Str (s : string).

(** Truthiness of a string: only the empty string is falsy. *)
Definition truthy_string (s : string) : bool :=
  match s with
  | EmptyString => false
  | String _ _ => true
  end.

(** Truthiness of a property: [undefined] and the empty string are falsy. *)
Definition truthy (v : value) : bool :=
  match v with
  | Undefined => false
  | Str s => truthy_string s
  end.

(** [v || d] where the result is used as a string. *)
Definition or_else (v : value) (d : string) : string :=
  match v with
  | Str (String u s) => String u s
  | _ => d
  end.

(** WhiteSpace and LineTerminator code units among the modelled ones: TAB,
    LF, VT, FF, CR, SP and NBSP. *)
Definition isWhiteSpace (u : unit16) : bool :=
  let n := code u in
  ((9 <=? n) && (n <=? 13) || (n =? 32) || (n =? 160))%N.

Fixpoint trimStart (s : string) : string :=
  match s with
  | EmptyString => EmptyString
  | String u s' => if isWhiteSpace u then trimStart s' else s
  end.

Fixpoint trimEnd (s : string) : string :=
  match s with
  | EmptyString => EmptyString
  | String u s' =>
      match trimEnd s' with
      | EmptyString => if isWhiteSpace u then EmptyString else String u EmptyString
      | t => String u t
      end
  end.

(** A string of white space only (the empty string included). *)
Fixpoint blank (s : string) : bool :=
  match s with
  | EmptyString => true
  | String u s' => isWhiteSpace u && blank s'
  end.

(** [String.prototype.trim]. *)
Definition trim (s : string) : string := trimEnd (trimStart s).

(** Lower-case mapping of one code unit: A-Z and the Latin-1 capitals
    U+00C0-U+00DE except the multiplication sign U+00D7 move up by 32; an
    unpaired surrogate maps to itself. *)
Definition lower (u : unit16) : unit16 :=
  let n := code u in
  if ((65 <=? n) && (n <=? 90) ||
      (192 <=? n) && (n <=? 222) && negb (n =? 215))%N
  then Latin1 (ascii_of_N (n + 32))
  else u.

(** [String.prototype.toLowerCase]. *)
Fixpoint toLowerCase (s : string) : string :=
  match s with
  | EmptyString => EmptyString
  | String u s' => String (lower u) (toLowerCase s')
  end.

(** Characters [encodeURIComponent] leaves alone: letters, digits and
    [- _ . ! ~ * ' ( )]. *)
Definition unreserved (u : unit16) : bool :=
  let n := code u in
  ((65 <=? n) && (n <=? 90) || (97 <=? n) && (n <=? 122) ||
   (48 <=? n) && (n <=? 57) ||
   (n =? 45) || (n =? 95) || (n =? 46) || (n =? 33) || (n =? 126) ||
   (n =? 42) || (n =? 39) || (n =? 40) || (n =? 41))%N.

Definition hexDigit (n : N) : unit16 :=
  Latin1 (if (n <? 10)%N then ascii_of_N (48 + n) else ascii_of_N (55 + n)).

(** One octet as [%XX], upper-case hexadecimal. *)
Definition percent (octet : N) (rest : string) : string :=
  String (Latin1 "%")
    (String (hexDigit (octet / 16)) (String (hexDigit (octet mod 16)) rest)).

(** [encodeURIComponent]: the UTF-8 octets of every other character,
    percent-escaped (one octet below 128, two from 128 to 255). [None] is
    the [URIError] it throws when the string holds an unpaired
    surrogate. *)
Fixpoint encodeURIComponent (s : string) : option string :=
  match s with
  | EmptyString => Some EmptyString
  | String (Lone _ _ _) _ => None
  | String (Latin1 c) s' =>
      match encodeURIComponent s' with
      | None => None
      | Some rest =>
          let n := N_of_ascii c in
          Some (if unreserved (Latin1 c) then String (Latin1 c) rest
                else if (n <? 128)%N then percent n rest
                else percent (192 + n / 64) (percent (128 + n mod 64) rest))
      end
  end.

(** A thrown value, as [catch] tells them apart: an [Error] instance with
    its [message], or anything else. *)
Inductive Thrown : Type :=
| ErrorInstance (message : string)
| NonError.

(** The messages of the two errors the engine itself throws in
    [handleSend]: the [URIError] of [encodeURIComponent] and the
    [TypeError] of reading [error] of [null]. The wording is the engine's
    (here V8's); only the places where they are thrown matter below. *)
Definition URIError_message : string := "URI malformed".

Definition TypeError_message : string :=
  "Cannot read properties of null (reading 'error')".

End JS.

Import JS.
Local Open Scope js_scope.

(** ** The wire format shared by the two components *)

(** The two properties either side reads of a parsed JSON body (of a value
    that is no object both are absent). *)
Record Body : Type := mkBody { error : value; response : value }.

(** What [response.json()] settles to: a rejection (the body is not JSON),
    the value [null], or any other value, given by its two properties. *)
Inductive JsonOutcome : Type :=
| JsonRejects (e : Thrown)
| JsonResolvesNull
| JsonResolves (data : Body).

Record Response : Type := mkResponse { status : Z; body : JsonOutcome }.

(** [response.ok]: the status is in the range 200-299. *)
Definition ok (r : Response) : bool := (200 <=? status r) && (status r <=? 299).

(** ** The Responder: [GET] of the chat route *)

Module Responder.

(** [NextResponse.json(data, { status })]; the status defaults to 200. *)
Definition NextResponse_json (data : Body) (init : option Z) : Response :=
  {| status := match init with Some s => s | None => 200 end;
     body := JsonResolves data |}.

Definition reply (text : string) : Body :=
  {| error := Undefined; response := Str text |}.

Definition failure (text : string) : Body :=
  {| error := Str text; response := Undefined |}.

(** [message] is the result of [searchParams.get('message')]: [None] is
    JavaScript's [null], returned when the parameter is absent. *)
Definition GET (message : option string) : Response :=
  match message with
  | None => NextResponse_json (failure "Missing message query") (Some 400)
  | Some m =>
      if negb (truthy_string m)
      then NextResponse_json (failure "Missing message query") (Some 400)
      else
        let key := toLowerCase m in
        if String.eqb key "hello"
        then NextResponse_json (reply "Hello! How can I help you today?") None
        else if String.eqb key "what is your name?"
        then NextResponse_json (reply "I'm a chatbot built by MAS.") None
        else if String.eqb key "error"
        then NextResponse_json (failure "Something went wrong") (Some 500)
        else NextResponse_json (reply "Sorry, I didn't understand that.") None
  end.

End Responder.

(** ** The Widget: state, effects and the handlers of [Chatbot] *)

Module Widget.

Inductive MessageSender : Type := User | Bot | Error | Typing.

(** [id] is a reading of [Date.now()] and [timestamp] of [new Date()],
    both in milliseconds; [text] is a [value] because [handleSend] passes
    properties of the parsed body straight to [addMessage]. *)
Record Message : Type := mkMessage {
  id : Z;
  text : value;
  sender : MessageSender;
  timestamp : option Z
}.

(** The three [useState] cells of the component. *)
Record State : Type := mkState {
  messages : list Message;
  input : string;
  isTyping : bool
}.

(** The two clock readings one call of [addMessage] makes. *)
Record Clock : Type := mkClock { now : Z; date : Z }.

(** What a handler does to the outside, in the order it does it. *)
Inductive Effect : Type :=
| AppendMessage (m : Message)  (* setMessages((prev) => [...prev, m]) *)
| SetInput (v : string)
| SetIsTyping (b : bool)
| Fetch (url : string)
| ConsoleError (err : Thrown).

(** What an effect does to the state of the component. *)
Definition apply_effect (e : Effect) (st : State) : State :=
  match e with
  | AppendMessage m =>
      {| messages := messages st ++ [m]; input := input st; isTyping := isTyping st |}
  | SetInput v =>
      {| messages := messages st; input := v; isTyping := isTyping st |}
  | SetIsTyping b =>
      {| messages := messages st; input := input st; isTyping := b |}
  | Fetch _ => st
  | ConsoleError _ => st
  end.

(** A run of a handler: the component state and the effects so far. *)
Record Run : Type := mkRun { state : State; effects : list Effect }.

(** Handlers run in a state monad over [Run] with exceptions: [inr e] is
    an uncaught [throw e] (or a rejected [await]). *)
Definition M (A : Type) : Type := Run -> (A + Thrown) * Run.

Definition ret {A} (a : A) : M A := fun r => (inl a, r).

Definition bind {A B} (m : M A) (k : A -> M B) : M B :=
  fun r =>
    match m r with
    | (inl a, r') => k a r'
    | (inr e, r') => (inr e, r')
    end.

Definition throw {A} (e : Thrown) : M A := fun r => (inr e, r).

(** [try { body } catch (err) { handler err }]. *)
Definition try_catch {A} (body : M A) (handler : Thrown -> M A) : M A :=
  fun r =>
    match body r with
    | (inl a, r') => (inl a, r')
    | (inr e, r') => handler e r'
    end.

(** [try { body } finally { cleanup }]: the cleanup runs on both exits and
    the body's completion stands unless the cleanup itself throws. *)
Definition try_finally {A} (body : M A) (cleanup : M unit) : M A :=
  fun r =>
    match body r with
    | (res, r') =>
        match cleanup r' with
        | (inl _, r'') => (res, r'')
        | (inr e, r'') => (inr e, r'')
        end
    end.

Declare Scope widget_scope.
Delimit Scope widget_scope with widget.
Notation "x <- m ;; k" := (bind m (fun x => k))
  (at level 61, m at next level, right associativity) : widget_scope.
Notation "m ;; k" := (bind m (fun _ => k))
  (at level 61, right associativity) : widget_scope.
Local Open Scope widget_scope.

Definition perform (e : Effect) : M unit :=
  fun r => (inl tt, {| state := apply_effect e (state r); effects := effects r ++ [e] |}).

Definition setMessages_append (m : Message) : M unit := perform (AppendMessage m).

Definition setInput (v : string) : M unit := perform (SetInput v).

Definition setIsTyping (b : bool) : M unit := perform (SetIsTyping b).

Definition console_error (err : Thrown) : M unit := perform (ConsoleError err).

(** The [input] the handler closes over. *)
Definition get_input : M string := fun r => (inl (input (state r)), r).

(** The object literal [newMessage] of [addMessage]. *)
Definition newMessage (c : Clock) (text : value) (sender : MessageSender) : Message :=
  {| id := now c; text := text; sender := sender; timestamp := Some (date c) |}.

Definition addMessage (c : Clock) (text : value) (sender : MessageSender) : M unit :=
  setMessages_append (newMessage c text sender).

(** How the request ends: [fetch] rejects (the network failed) or resolves
    to a response. *)
Inductive FetchOutcome : Type :=
| FetchRejects (e : Thrown)
| FetchResolves (r : Response).

Definition await_fetch (o : FetchOutcome) : M Response :=
  match o with
  | FetchRejects e => throw e
  | FetchResolves r => ret r
  end.

(** [await fetch(url)]: the request leaves, then the outcome arrives. *)
Definition fetch (url : string) (o : FetchOutcome) : M Response :=
  perform (Fetch url) ;; await_fetch o.

(** The value [response.json()] resolves to. *)
Inductive Parsed : Type :=
| Null
| NotNull (data : Body).

(** [await response.json()]. *)
Definition json (r : Response) : M Parsed :=
  match body r with
  | JsonRejects e => throw e
  | JsonResolvesNull => ret Null
  | JsonResolves data => ret (NotNull data)
  end.

(** [parsed.error]: reading a property of [null] throws a [TypeError]. *)
Definition get_error (parsed : Parsed) : M value :=
  match parsed with
  | Null => throw (ErrorInstance TypeError_message)
  | NotNull data => ret (error data)
  end.

(** [parsed.response], read where [parsed.error] has been read before. *)
Definition get_response (parsed : Parsed) : M value :=
  match parsed with
  | Null => throw (ErrorInstance TypeError_message)
  | NotNull data => ret (response data)
  end.

(** The URL of the request, when [encodeURIComponent] returns. *)
Definition chat_url (trimmedInput : string) : option string :=
  option_map (String.append "/api/chat?message=") (encodeURIComponent trimmedInput).

(** The template literal [`/api/chat?message=${encodeURIComponent(...)}`],
    which throws when [encodeURIComponent] does. *)
Definition template (trimmedInput : string) : M string :=
  match chat_url trimmedInput with
  | Some url => ret url
  | None => throw (ErrorInstance URIError_message)
  end.

Definition fallback_text : string := "Sorry, something went wrong. Please try again.".

(** The [try] block once [fetch] has settled. *)
Definition on_response (c : Clock) (res : Response) : M unit :=
  (if negb (ok res)
   then errorData <- json res ;;
        message <- get_error errorData ;;
        throw (ErrorInstance (or_else message "Failed to get response"))
   else ret tt) ;;
  data <- json res ;;
  e <- get_error data ;;
  if truthy e
  then addMessage c e Error
  else reply <- get_response data ;; addMessage c reply Bot.

(** The whole [try] block; [awaited] is the [await fetch(...)] at its head. *)
Definition try_block (awaited : M Response) (c : Clock) : M unit :=
  res <- awaited ;; on_response c res.

(** [err instanceof Error ? err.message : '...'], the text the [catch]
    block shows. *)
Definition catch_text (err : Thrown) : string :=
  match err with
  | ErrorInstance message => message
  | NonError => fallback_text
  end.

(** The [catch] block. *)
Definition on_catch (c : Clock) (err : Thrown) : M unit :=
  console_error err ;;
  addMessage c (Str (catch_text err)) Error.

(** [handleSend]; [c1] and [c2] are the clock at the two [addMessage]
    calls and [o] is how the request ends, if it is made. *)
Definition handleSend (c1 : Clock) (o : FetchOutcome) (c2 : Clock) : M unit :=
  input <- get_input ;;
  let trimmedInput := trim input in
  if negb (truthy_string trimmedInput) then ret tt
  else
    addMessage c1 (Str trimmedInput) User ;;
    setInput EmptyString ;;
    setIsTyping true ;;
    try_finally
      (try_catch
         (try_block (url <- template trimmedInput ;; fetch url o) c2)
         (on_catch c2))
      (setIsTyping false).

(** [handleSend] up to its first [await], or to its end when the template
    literal throws and none is reached: [true] when a request left. *)
Definition handleSend_until_await (c1 c2 : Clock) : M bool :=
  input <- get_input ;;
  let trimmedInput := trim input in
  if negb (truthy_string trimmedInput) then ret false
  else
    addMessage c1 (Str trimmedInput) User ;;
    setInput EmptyString ;;
    setIsTyping true ;;
    match chat_url trimmedInput with
    | Some url => perform (Fetch url) ;; ret true
    | None =>
        try_finally
          (try_catch (throw (ErrorInstance URIError_message)) (on_catch c2))
          (setIsTyping false) ;;
        ret false
    end.

(** [handleSend] resumed when the request settles. Between [await fetch]
    and [await response.json()] the function performs no effect, so the two
    are one step. *)
Definition handleSend_resume (o : FetchOutcome) (c2 : Clock) : M unit :=
  try_finally
    (try_catch (try_block (await_fetch o) c2) (on_catch c2))
    (setIsTyping false).

(** [handleKeyDown]: Enter without Shift sends ([preventDefault] touches
    nothing of the component). *)
Definition handleKeyDown (key : string) (shiftKey : bool) (c1 c2 : Clock) : M bool :=
  if String.eqb key "Enter" && negb shiftKey
  then handleSend_until_await c1 c2
  else ret false.

(** *** The component as a machine driven by events *)

(** [disabled] of the text input and of the send button. *)
Definition input_disabled (st : State) : bool := isTyping st.

Definition button_disabled (st : State) : bool :=
  negb (truthy_string (trim (input st))) || isTyping st.

(** The mounted component together with the requests that have left and
    not settled yet. *)
Record World : Type := mkWorld { widget : State; inflight : list string }.

(** The clocks [c] and [c'] of a key press and of a click are the readings
    at the user's message and at the error message of a send that throws
    before its request. *)
Inductive Event : Type :=
| Change (v : string)                                      (* onChange of the input *)
| KeyDown (key : string) (shiftKey : bool) (c c' : Clock)  (* onKeyDown of the input *)
| Click (c c' : Clock)                                     (* onClick of the button *)
| Settle (o : FetchOutcome) (c : Clock).                   (* the oldest request settles *)

Fixpoint requests (es : list Effect) : list string :=
  match es with
  | [] => []
  | Fetch url :: es' => url :: requests es'
  | _ :: es' => requests es'
  end.

Fixpoint appended (es : list Effect) : list Message :=
  match es with
  | [] => []
  | AppendMessage m :: es' => m :: appended es'
  | _ :: es' => appended es'
  end.

(** Run a handler on the current state; the requests it issues join the
    ones in flight. *)
Definition dispatch {A} (handler : M A) (w : World) : World :=
  let r := snd (handler {| state := widget w; effects := [] |}) in
  {| widget := state r; inflight := inflight w ++ requests (effects r) |}.

(** One event delivered to a component that has rendered the state it is
    in, as it has when React renders after every event before the next is
    delivered ([Live] below drops that assumption). A disabled control
    delivers no event, and a settlement needs a request in flight. *)
Definition step (ev : Event) (w : World) : World :=
  match ev with
  | Change v =>
      if input_disabled (widget w) then w else dispatch (setInput v) w
  | KeyDown key shiftKey c c' =>
      if input_disabled (widget w) then w
      else dispatch (handleKeyDown key shiftKey c c') w
  | Click c c' =>
      if button_disabled (widget w) then w
      else dispatch (handleSend_until_await c c') w
  | Settle o c =>
      match inflight w with
      | [] => w
      | _ :: rest =>
          dispatch (handleSend_resume o c) {| widget := widget w; inflight := rest |}
      end
  end.

Definition mount : World :=
  {| widget := {| messages := []; input := EmptyString; isTyping := false |};
     inflight := [] |}.

Definition run (evs : list Event) (w : World) : World :=
  fold_left (fun w ev => step ev w) evs w.

Inductive reachable : World -> Prop :=
| reachable_mount : reachable mount
| reachable_step ev w : reachable w -> reachable (step ev w).

(** The clocks an event may read, in the order it reads them. *)
Definition event_clocks (ev : Event) : list Clock :=
  match ev with
  | Change _ => []
  | KeyDown _ _ c c' => [c; c']
  | Click c c' => [c; c']
  | Settle _ c => [c]
  end.

(** The invariant of the machine: while a reply is awaited the input is
    empty and one request is in flight; otherwise none is. *)
Definition settled_or_single (w : World) : Prop :=
  if isTyping (widget w)
  then input (widget w) = EmptyString /\ exists url, inflight w = [url]
  else inflight w = [].

(** *** Concrete scenarios *)

(** A freshly mounted component in which [text] has been typed. *)
Definition typed (text : string) : Run :=
  {| state := {| messages := []; input := text; isTyping := false |}; effects := [] |}.

(** The outcome of a request that reaches the Responder: the route hands
    the decoded [message] parameter to [GET]. *)
Definition served (message : option string) : FetchOutcome :=
  FetchResolves (Responder.GET message).

(** A clock whose two readings agree. *)
Definition at_ms (t : Z) : Clock := {| now := t; date := t |}.

End Widget.

(** ** Reading an escaped component back *)

Module URI.

(** Every code unit of a string satisfies [p]. *)
Fixpoint every (p : unit16 -> bool) (s : string) : bool :=
  match s with
  | EmptyString => true
  | String u s' => p u && every p s'
  end.

(** A string without unpaired surrogate. *)
Definition wellFormed (s : string) : bool :=
  every (fun u => match u with Latin1 _ => true | Lone _ _ _ => false end) s.

Definition is_char (c : ascii) (u : unit16) : bool := String.eqb_unit u (Latin1 c).

Definition hexValue (u : unit16) : option N :=
  let n := code u in
  if ((48 <=? n) && (n <=? 57))%N then Some (n - 48)%N
  else if ((65 <=? n) && (n <=? 70))%N then Some (n - 55)%N
  else if ((97 <=? n) && (n <=? 102))%N then Some (n - 87)%N
  else None.

(** [decodeURIComponent], the inverse built-in, on escapes of characters
    below 256: [None] where JavaScript throws a [URIError] (a [%] without
    two hexadecimal digits, octets that are not UTF-8) or decodes to a
    character from 256 on. *)
Fixpoint decodeURIComponent (s : string) : option string :=
  match s with
  | EmptyString => Some EmptyString
  | String u s' =>
      if is_char "%" u then
        match s' with
        | String h (String l rest) =>
            match hexValue h, hexValue l with
            | Some a, Some b =>
                let o := (16 * a + b)%N in
                if (o <? 128)%N
                then option_map (String (Latin1 (ascii_of_N o))) (decodeURIComponent rest)
                else if ((o =? 194) || (o =? 195))%N then
                  match rest with
                  | String p (String h2 (String l2 rest2)) =>
                      if is_char "%" p then
                        match hexValue h2, hexValue l2 with
                        | Some a2, Some b2 =>
                            let o2 := (16 * a2 + b2)%N in
                            if ((128 <=? o2) && (o2 <? 192))%N
                            then option_map
                                   (String (Latin1 (ascii_of_N ((o - 192) * 64 + (o2 - 128)))))
                                   (decodeURIComponent rest2)
                            else None
                        | _, _ => None
                        end
                      else None
                  | _ => None
                  end
                else None
            | _, _ => None
            end
        | _ => None
        end
      else option_map (String u) (decodeURIComponent s')
  end.

End URI.

(** ** The transcript as a conversation *)

Module Transcript.

Import Widget.

(** Reading the senders of a transcript from the first message on:
    [Some false] after complete exchanges, [Some true] after a [User]
    message that has no reply yet, [None] once the order is broken (a reply
    without a question, two questions in a row, a stored [Typing]). *)
Definition turn (awaiting : option bool) (s : MessageSender) : option bool :=
  match awaiting, s with
  | Some false, User => Some true
  | Some true, Bot => Some false
  | Some true, Error => Some false
  | _, _ => None
  end.

Definition awaiting_after (senders : list MessageSender) : option bool :=
  fold_left turn senders (Some false).

(** Every number of the list is greater than the one before it, the first
    greater than [t]. *)
Fixpoint increasing (t : Z) (readings : list Z) : bool :=
  match readings with
  | [] => true
  | x :: rest => (t <? x) && increasing x rest
  end.

(** Every clock reading of the events is later than the one before it,
    starting above [t]. *)
Definition advancing (t : Z) (evs : list Event) : bool :=
  increasing t (map now (flat_map event_clocks evs)).

(** What the states of [reachable] have in common: the transcript is a
    sequence of exchanges and [isTyping] says whether the last one is open;
    the text of a [User] message is non-empty and trimmed; the request in
    flight is the one for the last message. *)
Definition well_formed (w : World) : Prop :=
  awaiting_after (map sender (messages (widget w))) = Some (isTyping (widget w)) /\
  (forall m : Message,
     In m (messages (widget w)) -> sender m = User ->
     exists t : string, text m = Str t /\ t <> EmptyString /\ trim t = t) /\
  (isTyping (widget w) = true ->
   exists (ms : list Message) (m : Message) (t url : string),
     messages (widget w) = (ms ++ [m])%list /\
     text m = Str t /\ sender m = User /\
     chat_url t = Some url /\ inflight w = [url]).

End Transcript.

(** ** What the component renders *)

Module View.

Import Widget.








End View.

(** ** The component between renders *)

Module Live.

Import Widget.

(** The state React holds, the state the last render showed, and the
    requests in flight. The handlers and the [disabled] attributes on the
    page are those of the last render. *)
Record Component : Type := mkComponent {
  current : State;
  rendered : State;
  pending : list string
}.

Inductive Happening : Type :=
| Deliver (ev : Event)
| Render.

(** A handler of the last render runs: it reads the [input] that render
    captured, and its effects are updates of the state React holds (the
    one of the transcript is [prev => [...prev, m]]). *)
Definition deliver {A} (handler : M A) (l : Component) : Component :=
  let es := effects (snd (handler {| state := rendered l; effects := [] |})) in
  {| current := fold_left (fun st e => apply_effect e st) es (current l);
     rendered := rendered l;
     pending := (pending l ++ requests es)%list |}.

(** An event reaches its handler unless the control was rendered disabled;
    a render shows the state React holds. *)
Definition happen (h : Happening) (l : Component) : Component :=
  match h with
  | Render => {| current := current l; rendered := current l; pending := pending l |}
  | Deliver (Change v) =>
      if input_disabled (rendered l) then l else deliver (setInput v) l
  | Deliver (KeyDown key shiftKey c c') =>
      if input_disabled (rendered l) then l
      else deliver (handleKeyDown key shiftKey c c') l
  | Deliver (Click c c') =>
      if button_disabled (rendered l) then l
      else deliver (handleSend_until_await c c') l
  | Deliver (Settle o c) =>
      match pending l with
      | [] => l
      | _ :: rest =>
          deliver (handleSend_resume o c)
            {| current := current l; rendered := rendered l; pending := rest |}
      end
  end.

Definition mounted : Component :=
  {| current := widget mount; rendered := widget mount; pending := [] |}.

Definition play (hs : list Happening) (l : Component) : Component :=
  fold_left (fun l h => happen h l) hs l.

(** The events with a render after each of them. *)
Definition rendered_after_each (evs : list Event) : list Happening :=
  flat_map (fun ev => [Deliver ev; Render]) evs.

(** A world of [step] as a component that has rendered its state. *)
Definition shown (w : World) : Component :=
  {| current := widget w; rendered := widget w; pending := inflight w |}.

End Live.

(** * Properties *)

(** ** Strings *)

Lemma truthy_string_false (s : string) :
  truthy_string s = false <-> s = EmptyString.
Proof. destruct s; simpl; split; congruence. Qed.

Lemma truthy_string_true (s : string) :
  truthy_string s = true <-> s <> EmptyString.
Proof. destruct s; simpl; split; congruence. Qed.

Lemma trimStart_blank (s : string) :
  trimStart s = EmptyString <-> blank s = true.
Proof.
  induction s as [|c s IH]; simpl.
  - tauto.
  - destruct (isWhiteSpace c); simpl; [exact IH | split; discriminate].
Qed.

Lemma trimEnd_empty (s : string) :
  trimEnd s = EmptyString <-> blank s = true.
Proof.
  induction s as [|c s IH]; simpl.
  - tauto.
  - destruct (trimEnd s) eqn:E.
    + destruct (isWhiteSpace c); simpl.
      * split; [intros _; apply IH; reflexivity | reflexivity].
      * split; discriminate.
    + split; [discriminate|].
      rewrite andb_true_iff. intros [_ Hb]. apply IH in Hb. discriminate.
Qed.

Lemma trimStart_head (s : string) :
  match trimStart s with
  | EmptyString => True
  | String c _ => isWhiteSpace c = false
  end.
Proof.
  induction s as [|c s IH]; simpl; [exact I|].
  destruct (isWhiteSpace c) eqn:E; [exact IH | exact E].
Qed.

(** [trim] returns the empty string exactly on the empty and the
    blank-only strings. *)
Lemma trim_empty_iff (s : string) :
  trim s = EmptyString <-> blank s = true.
Proof.
  unfold trim. rewrite trimEnd_empty.
  split; intros H.
  - apply trimStart_blank.
    pose proof (trimStart_head s) as Hh.
    destruct (trimStart s) as [|c t]; [reflexivity|].
    simpl in H. rewrite Hh in H. discriminate.
  - apply trimStart_blank in H. rewrite H. reflexivity.
Qed.

(** Equality of strings is decided by [String.eqb]. *)
Lemma eqb_unit_spec (u v : unit16) : reflect (u = v) (String.eqb_unit u v).
Proof.
  destruct u as [c | b9 b8 lo], v as [d | b9' b8' lo']; cbn;
    try (constructor; discriminate).
  - destruct (Ascii.eqb_spec c d); constructor; congruence.
  - destruct (Bool.eqb_spec b9 b9'), (Bool.eqb_spec b8 b8'), (Ascii.eqb_spec lo lo');
      cbn; constructor; congruence.
Qed.

Lemma eqb_spec (s1 s2 : string) : reflect (s1 = s2) (String.eqb s1 s2).
Proof.
  revert s2. induction s1 as [|u s1 IH]; intros [|v s2]; cbn;
    try (constructor; congruence).
  destruct (eqb_unit_spec u v); cbn; [|constructor; congruence].
  destruct (IH s2); constructor; congruence.
Qed.

Lemma string_dec (s1 s2 : string) : {s1 = s2} + {s1 <> s2}.
Proof. destruct (eqb_spec s1 s2); [left | right]; assumption. Qed.

(** An unpaired surrogate is no white space, has no lower-case form other
    than itself and is no hexadecimal digit. *)
Lemma Lone_units (b9 b8 : bool) (lo : ascii) :
  isWhiteSpace (Lone b9 b8 lo) = false /\
  lower (Lone b9 b8 lo) = Lone b9 b8 lo /\
  unreserved (Lone b9 b8 lo) = false.
Proof.
  destruct b9, b8, lo as [[] [] [] [] [] [] [] []]; repeat split.
Qed.

(** The built-ins on a few inputs. *)
Example trim_examples :
  trim "  a b  " = "a b" /\
  trim (String (Latin1 (ascii_of_nat 9)) (String (Latin1 (ascii_of_nat 160)) "hello")) =
    "hello" /\
  trim "hello" = "hello" /\
  trim "   " = EmptyString /\
  trim (String (Lone false false zero) " ") = String (Lone false false zero) EmptyString.
Proof. repeat split. Qed.

Example toLowerCase_examples :
  toLowerCase "What Is Your NAME?" = "what is your name?" /\
  toLowerCase (String (Latin1 (ascii_of_nat 201)) "T" ++
               String (Latin1 (ascii_of_nat 215)) "9") =
    String (Latin1 (ascii_of_nat 233)) "t" ++ String (Latin1 (ascii_of_nat 215)) "9".
Proof. repeat split. Qed.

Example encodeURIComponent_examples :
  encodeURIComponent "a b&c=d/e?f+g" = Some "a%20b%26c%3Dd%2Fe%3Ff%2Bg" /\
  encodeURIComponent "it's (ok)!~*._-" = Some "it's%20(ok)!~*._-" /\
  encodeURIComponent (String (Latin1 (ascii_of_nat 233)) EmptyString) = Some "%C3%A9" /\
  encodeURIComponent (String (Latin1 "a") (String (Lone true false zero) "b")) = None.
Proof. repeat split. Qed.

(** ** The Responder *)

Module ResponderFacts.

Import Responder.

Lemma eqb_neq_false (a b : string) : a <> b -> String.eqb a b = false.
Proof. intros H. destruct (eqb_spec a b); [contradiction | reflexivity]. Qed.

(** C1. For a non-empty [message] the Responder dispatches on the
    lower-cased text by exact match: "hello" and "what is your name?" get
    their canned reply with status 200, "error" gets status 500 with the
    error payload "Something went wrong", and every other text gets the
    reply "Sorry, I didn't understand that." with status 200. *)
Theorem GET_dispatch (m : string) (Hm : m <> EmptyString) :
  (toLowerCase m = "hello" ->
   GET (Some m) =
   {| status := 200;
      body := JsonResolves {| error := Undefined;
                              response := Str "Hello! How can I help you today?" |} |}) /\
  (toLowerCase m = "what is your name?" ->
   GET (Some m) =
   {| status := 200;
      body := JsonResolves {| error := Undefined;
                              response := Str "I'm a chatbot built by MAS." |} |}) /\
  (toLowerCase m = "error" ->
   GET (Some m) =
   {| status := 500;
      body := JsonResolves {| error := Str "Something went wrong";
                              response := Undefined |} |}) /\
  (toLowerCase m <> "hello" ->
   toLowerCase m <> "what is your name?" ->
   toLowerCase m <> "error" ->
   GET (Some m) =
   {| status := 200;
      body := JsonResolves {| error := Undefined;
                              response := Str "Sorry, I didn't understand that." |} |}).
Proof.
  apply truthy_string_true in Hm.
  unfold GET. rewrite Hm. cbn [negb].
  repeat split.
  - intros ->. reflexivity.
  - intros ->. reflexivity.
  - intros ->. reflexivity.
  - intros H1 H2 H3.
    rewrite (eqb_neq_false _ _ H1), (eqb_neq_false _ _ H2), (eqb_neq_false _ _ H3).
    reflexivity.
Qed.

Lemma GET_dispatch_witness :
  GET (Some "HeLLo") =
  {| status := 200;
     body := JsonResolves {| error := Undefined;
                             response := Str "Hello! How can I help you today?" |} |}.
Proof.
  apply (GET_dispatch "HeLLo"); [discriminate | reflexivity].
Defined.

(** The three spellings of the testable property give one reply, and the
    match is on the whole text. *)
Example GET_case_insensitive :
  GET (Some "Hello") = GET (Some "hello") /\
  GET (Some "HELLO") = GET (Some "hello") /\
  GET (Some "What Is Your Name?") = GET (Some "what is your name?") /\
  GET (Some "ERROR") = GET (Some "error") /\
  GET (Some "hello ") = GET (Some "banana").
Proof. repeat split. Qed.

(** C7. When the [message] parameter is absent or empty the Responder
    answers status 400 (a client error, not [ok]) with the error payload
    "Missing message query" and no [response] property. *)
Theorem GET_missing_message :
  GET None =
  {| status := 400;
     body := JsonResolves {| error := Str "Missing message query";
                             response := Undefined |} |} /\
  GET (Some EmptyString) = GET None /\
  ok (GET None) = false /\
  (400 <= status (GET None) <= 499).
Proof. repeat split; vm_compute; congruence. Qed.

(** Conversely, the 400 answer is given to no other message. *)
Lemma GET_400_only_missing (message : option string) :
  status (GET message) = 400 -> message = None \/ message = Some EmptyString.
Proof.
  destruct message as [[|c s]|]; [right; reflexivity | | left; reflexivity].
  unfold GET. cbn [truthy_string negb].
  repeat match goal with
         | |- context [if ?b then _ else _] => destruct b
         end; simpl; discriminate.
Qed.

End ResponderFacts.

(** ** The Widget: one call of [handleSend] *)

Module WidgetFacts.

Import Widget.
Local Open Scope list_scope.
Local Open Scope widget_scope.

Lemma requests_app (es1 es2 : list Effect) :
  requests (es1 ++ es2) = requests es1 ++ requests es2.
Proof.
  induction es1 as [|[] es1 IH]; simpl; rewrite ?IH; reflexivity.
Qed.

Lemma appended_app (es1 es2 : list Effect) :
  appended (es1 ++ es2) = appended es1 ++ appended es2.
Proof.
  induction es1 as [|[] es1 IH]; simpl; rewrite ?IH; reflexivity.
Qed.

Ltac run_handler :=
  unfold handleSend, handleSend_until_await, handleSend_resume, try_finally,
    try_catch, try_block, on_response, on_catch, fetch, template, bind;
  cbn.

(** The synchronous part of a send whose URL is built: the request
    leaves. *)
Lemma until_await_run (c1 c2 : Clock) (r : Run) (url : string) :
  trim (input (state r)) <> EmptyString ->
  chat_url (trim (input (state r))) = Some url ->
  handleSend_until_await c1 c2 r =
  (inl true,
   {| state := {| messages := messages (state r) ++
                              [newMessage c1 (Str (trim (input (state r)))) User];
                  input := EmptyString;
                  isTyping := true |};
      effects := effects r ++
                 [AppendMessage (newMessage c1 (Str (trim (input (state r)))) User);
                  SetInput EmptyString; SetIsTyping true; Fetch url] |}).
Proof.
  intros H Hurl. apply truthy_string_true in H.
  destruct r as [[ms inp ty] es]. cbn [state input] in *.
  unfold handleSend_until_await, bind, get_input. cbn [state input].
  rewrite H, Hurl. cbn. rewrite <- !app_assoc. reflexivity.
Qed.

(** The synchronous part of a send whose text holds an unpaired surrogate:
    the [URIError] is caught and shown, and the function is over. *)
Lemma until_await_throws (c1 c2 : Clock) (r : Run) :
  trim (input (state r)) <> EmptyString ->
  chat_url (trim (input (state r))) = None ->
  handleSend_until_await c1 c2 r =
  (inl false,
   {| state := {| messages := messages (state r) ++
                              [newMessage c1 (Str (trim (input (state r)))) User;
                               newMessage c2 (Str URIError_message) Error];
                  input := EmptyString;
                  isTyping := false |};
      effects := effects r ++
                 [AppendMessage (newMessage c1 (Str (trim (input (state r)))) User);
                  SetInput EmptyString; SetIsTyping true;
                  ConsoleError (ErrorInstance URIError_message);
                  AppendMessage (newMessage c2 (Str URIError_message) Error);
                  SetIsTyping false] |}).
Proof.
  intros H Hurl. apply truthy_string_true in H.
  destruct r as [[ms inp ty] es]. cbn [state input] in *.
  unfold handleSend_until_await, bind, get_input. cbn [state input].
  rewrite H, Hurl. run_handler. rewrite <- !app_assoc. reflexivity.
Qed.

(** With nothing to send the synchronous part does nothing. *)
Lemma until_await_noop (c1 c2 : Clock) (r : Run) :
  trim (input (state r)) = EmptyString ->
  handleSend_until_await c1 c2 r = (inl false, r).
Proof.
  intros H. unfold handleSend_until_await, bind, get_input. rewrite H. reflexivity.
Qed.

(** The continuation, from any state it finds: one more message, which the
    outcome and the clock determine, the flag cleared, no request. *)
Lemma resume_run (o : FetchOutcome) (c2 : Clock) :
  exists reply later,
    (forall r : Run,
       handleSend_resume o c2 r =
       (inl tt,
        {| state := {| messages := messages (state r) ++ [reply];
                       input := input (state r);
                       isTyping := false |};
           effects := effects r ++ later ++ [AppendMessage reply; SetIsTyping false] |})) /\
    id reply = now c2 /\
    (sender reply = Bot \/ sender reply = Error) /\
    requests later = [] /\ appended later = [].
Proof.
  destruct o as [e | [st [e | | [err resp]]]].
  - exists (newMessage c2 (Str (catch_text e)) Error), [ConsoleError e].
    repeat split; auto.
    intros [[ms inp ty] es]. cbn. rewrite <- !app_assoc. reflexivity.
  - exists (newMessage c2 (Str (catch_text e)) Error), [ConsoleError e].
    repeat split; auto.
    intros [[ms inp ty] es].
    destruct (ok {| status := st; body := JsonRejects e |}) eqn:Hok;
      run_handler; rewrite Hok; cbn; rewrite <- !app_assoc; reflexivity.
  - exists (newMessage c2 (Str TypeError_message) Error),
      [ConsoleError (ErrorInstance TypeError_message)].
    repeat split; auto.
    intros [[ms inp ty] es].
    destruct (ok {| status := st; body := JsonResolvesNull |}) eqn:Hok;
      run_handler; rewrite Hok; cbn; rewrite <- !app_assoc; reflexivity.
  - destruct (ok {| status := st; body := JsonResolves (mkBody err resp) |}) eqn:Hok.
    + destruct (truthy err) eqn:Ht;
        [exists (newMessage c2 err Error), [] | exists (newMessage c2 resp Bot), []];
        (repeat split; auto);
        intros [[ms inp ty] es];
        run_handler; rewrite Hok; cbn; rewrite Ht; cbn; rewrite <- !app_assoc;
        reflexivity.
    + exists (newMessage c2 (Str (or_else err "Failed to get response")) Error),
        [ConsoleError (ErrorInstance (or_else err "Failed to get response"))].
      repeat split; auto.
      intros [[ms inp ty] es].
      run_handler; rewrite Hok; cbn; rewrite <- !app_assoc; reflexivity.
Qed.

(** [handleSend] is its synchronous part followed, when a request left, by
    the continuation. *)
Lemma handleSend_phases (c1 : Clock) (o : FetchOutcome) (c2 : Clock) (r : Run) :
  handleSend c1 o c2 r =
  (sent <- handleSend_until_await c1 c2 ;;
   if sent : bool then handleSend_resume o c2 else ret tt) r.
Proof.
  unfold handleSend, handleSend_until_await, handleSend_resume, bind, get_input.
  destruct (negb (truthy_string (trim (input (state r))))); [reflexivity|].
  cbn. unfold try_finally, try_catch, try_block, fetch, template, bind.
  destruct (chat_url (trim (input (state r)))); cbn; reflexivity.
Qed.

(** One whole call that goes through: the user's message, then what the
    send does (the request or nothing), then the reply. *)
Lemma handleSend_run (c1 : Clock) (o : FetchOutcome) (c2 : Clock) (r : Run) :
  trim (input (state r)) <> EmptyString ->
  exists reply later,
    handleSend c1 o c2 r =
    (inl tt,
     {| state := {| messages := messages (state r) ++
                                [newMessage c1 (Str (trim (input (state r)))) User; reply];
                    input := EmptyString;
                    isTyping := false |};
        effects := effects r ++
                   [AppendMessage (newMessage c1 (Str (trim (input (state r)))) User);
                    SetInput EmptyString; SetIsTyping true] ++
                   later ++ [AppendMessage reply; SetIsTyping false] |}) /\
    id reply = now c2 /\
    (sender reply = Bot \/ sender reply = Error) /\
    appended later = [] /\
    match chat_url (trim (input (state r))) with
    | Some url =>
        exists rest, later = Fetch url :: rest /\ requests rest = [] /\
        forall r' : Run,
          handleSend_resume o c2 r' =
          (inl tt,
           {| state := {| messages := messages (state r') ++ [reply];
                          input := input (state r');
                          isTyping := false |};
              effects := effects r' ++ rest ++ [AppendMessage reply; SetIsTyping false] |})
    | None =>
        later = [ConsoleError (ErrorInstance URIError_message)] /\
        reply = newMessage c2 (Str URIError_message) Error
    end.
Proof.
  intros H. rewrite handleSend_phases. unfold bind at 1.
  destruct (chat_url (trim (input (state r)))) as [url|] eqn:Hurl.
  - destruct (resume_run o c2) as (reply & rest & Heq & Hid & Hs & Hreq & Happ).
    exists reply, (Fetch url :: rest).
    rewrite (until_await_run c1 c2 r url H Hurl), Heq.
    cbn [state messages input effects]. rewrite <- !app_assoc. cbn [app].
    repeat split; auto. exists rest. repeat split; auto.
  - exists (newMessage c2 (Str URIError_message) Error),
      [ConsoleError (ErrorInstance URIError_message)].
    rewrite (until_await_throws c1 c2 r H Hurl). cbn. repeat split; auto.
Qed.

(** C2. A call of [handleSend] whose trimmed input is not empty appends
    exactly one [User] message carrying the trimmed text and then exactly
    one more message, sent by [Bot] or [Error]: whatever the outcome [o] (a
    reply, an error payload, a rejected request or body), and whatever
    state the continuation finds when the exchange settles. *)
Theorem handleSend_appends_user_then_reply
    (c1 : Clock) (o : FetchOutcome) (c2 : Clock) (r : Run)
    (Hinput : trim (input (state r)) <> EmptyString) :
  exists sent reply : Message,
    text sent = Str (trim (input (state r))) /\ sender sent = User /\
    id sent = now c1 /\
    (sender reply = Bot \/ sender reply = Error) /\ id reply = now c2 /\
    messages (state (snd (handleSend c1 o c2 r))) =
      messages (state r) ++ [sent; reply] /\
    appended (effects (snd (handleSend c1 o c2 r))) =
      appended (effects r) ++ [sent; reply] /\
    (chat_url (trim (input (state r))) <> None ->
     messages (state (snd (handleSend_until_await c1 c2 r))) =
       messages (state r) ++ [sent] /\
     forall r' : Run,
       messages (state (snd (handleSend_resume o c2 r'))) =
         messages (state r') ++ [reply] /\
       appended (effects (snd (handleSend_resume o c2 r'))) =
         appended (effects r') ++ [reply]) /\
    (exists settled : Message,
       (sender settled = Bot \/ sender settled = Error) /\
       forall r' : Run,
         messages (state (snd (handleSend_resume o c2 r'))) =
           messages (state r') ++ [settled] /\
         appended (effects (snd (handleSend_resume o c2 r'))) =
           appended (effects r') ++ [settled]).
Proof.
  destruct (handleSend_run c1 o c2 r Hinput)
    as (reply & later & Hall & Hid & Hs & Happ & Hurl).
  exists (newMessage c1 (Str (trim (input (state r)))) User), reply.
  rewrite Hall. cbn [snd state messages effects].
  rewrite !appended_app, Happ. cbn [appended app].
  repeat (split; [first [reflexivity | assumption]|]).
  split.
  - intros Hsome. destruct (chat_url (trim (input (state r)))) as [url|] eqn:Hu;
      [|congruence].
    destruct Hurl as (rest & -> & Hreq & Hres).
    rewrite (until_await_run c1 c2 r url Hinput Hu). split; [reflexivity|].
    intros r'. rewrite Hres. cbn [snd state messages effects]. split; [reflexivity|].
    cbn [appended] in Happ. rewrite !appended_app, Happ. reflexivity.
  - destruct (resume_run o c2) as (settled & trail & Heq & _ & Hs' & _ & Happ').
    exists settled. split; [exact Hs'|]. intros r'. rewrite Heq.
    cbn [snd state messages effects]. split; [reflexivity|].
    rewrite !appended_app, Happ'. reflexivity.
Qed.

(** C3. Once the exchange of a call of [handleSend] has settled, [isTyping]
    is false and nothing is thrown further, on every outcome [o]: for the
    whole call, for the continuation from any state, and for the [Settle]
    step of the component. The flag was true while the request was out. *)
Theorem handleSend_clears_isTyping
    (c1 : Clock) (o : FetchOutcome) (c2 : Clock) (r : Run)
    (Hinput : trim (input (state r)) <> EmptyString) :
  isTyping (state (snd (handleSend_until_await c1 c2 r))) =
    match chat_url (trim (input (state r))) with Some _ => true | None => false end /\
  fst (handleSend c1 o c2 r) = inl tt /\
  isTyping (state (snd (handleSend c1 o c2 r))) = false /\
  (forall r' : Run,
     fst (handleSend_resume o c2 r') = inl tt /\
     isTyping (state (snd (handleSend_resume o c2 r'))) = false) /\
  (forall w : World,
     inflight w <> [] -> isTyping (widget (step (Settle o c2) w)) = false).
Proof.
  destruct (handleSend_run c1 o c2 r Hinput) as (reply & later & Hall & _).
  destruct (resume_run o c2) as (settled & trail & Hres & _).
  rewrite Hall.
  split; [|repeat split; try (rewrite Hres; reflexivity)].
  - destruct (chat_url (trim (input (state r)))) as [url|] eqn:Hu.
    + rewrite (until_await_run c1 c2 r url Hinput Hu). reflexivity.
    + rewrite (until_await_throws c1 c2 r Hinput Hu). reflexivity.
  - intros w Hw. unfold step. destruct (inflight w) as [|url rest]; [congruence|].
    unfold dispatch. rewrite Hres. reflexivity.
Qed.

(** C5, as the code has it. When [fetch] rejects with the value [e], the
    call appends, after the user's message, exactly one [Error] message
    whose text is [e.message] if [e] is an [Error] instance (as the
    [TypeError] of a failed request is) and the fallback text only if it is
    not; [isTyping] ends false and no second request is made. *)
Theorem handleSend_fetch_rejects
    (c1 : Clock) (e : Thrown) (c2 : Clock) (r : Run) (url : string)
    (Hinput : trim (input (state r)) <> EmptyString)
    (Hurl : chat_url (trim (input (state r))) = Some url) :
  let sent := newMessage c1 (Str (trim (input (state r)))) User in
  let shown := newMessage c2 (Str (catch_text e)) Error in
  handleSend c1 (FetchRejects e) c2 r =
  (inl tt,
   {| state := {| messages := messages (state r) ++ [sent; shown];
                  input := EmptyString;
                  isTyping := false |};
      effects := effects r ++
                 [AppendMessage sent; SetInput EmptyString; SetIsTyping true;
                  Fetch url;
                  ConsoleError e; AppendMessage shown; SetIsTyping false] |}) /\
  (forall m : string, e = ErrorInstance m -> text shown = Str m) /\
  (e = NonError -> text shown = Str fallback_text) /\
  (e = NonError ->
   text shown = Str "Sorry, something went wrong. Please try again.") /\
  sender shown = Error /\
  text sent = Str (trim (input (state r))) /\ sender sent = User.
Proof.
  intros sent shown.
  split; [|repeat split; intros; subst; reflexivity].
  apply truthy_string_true in Hinput.
  destruct r as [[ms inp ty] es]. cbn [state input] in *.
  unfold handleSend, bind, get_input. cbn [state input]. rewrite Hinput.
  run_handler. rewrite Hurl. cbn. rewrite <- !app_assoc. reflexivity.
Qed.

(** C8, as the code has it. A call of [handleSend] whose trimmed input is
    not empty performs first, in this order: the append of the [User]
    message with the trimmed text, [setInput('')] and [setIsTyping(true)].
    When [encodeURIComponent] returns, the next effect is the [fetch] of
    the chat URL whose only query parameter is the escaped trimmed text,
    and no other request follows; when it throws, on a text that holds an
    unpaired surrogate, no request is made at all. *)
Theorem handleSend_effects_in_order
    (c1 : Clock) (o : FetchOutcome) (c2 : Clock) (r : Run)
    (Hinput : trim (input (state r)) <> EmptyString) :
  let trimmedInput := trim (input (state r)) in
  exists (sent : Message) (later : list Effect),
    text sent = Str trimmedInput /\ sender sent = User /\
    effects (snd (handleSend c1 o c2 r)) =
      effects r ++
      [AppendMessage sent; SetInput EmptyString; SetIsTyping true] ++ later /\
    (forall escaped : string,
       encodeURIComponent trimmedInput = Some escaped ->
       exists rest : list Effect,
         later = Fetch (String.append "/api/chat?message=" escaped) :: rest /\
         requests rest = [] /\
         handleSend_until_await c1 c2 r =
         (inl true,
          {| state := {| messages := messages (state r) ++ [sent];
                         input := EmptyString;
                         isTyping := true |};
             effects := effects r ++
                        [AppendMessage sent; SetInput EmptyString; SetIsTyping true;
                         Fetch (String.append "/api/chat?message=" escaped)] |})) /\
    (encodeURIComponent trimmedInput = None -> requests later = []).
Proof.
  intros trimmedInput.
  destruct (handleSend_run c1 o c2 r Hinput)
    as (reply & later & Hall & _ & _ & _ & Hurl).
  exists (newMessage c1 (Str trimmedInput) User),
    (later ++ [AppendMessage reply; SetIsTyping false]).
  rewrite Hall. cbn [snd effects]. repeat split.
  - intros escaped Hesc. fold trimmedInput in Hurl.
    assert (Hu : chat_url trimmedInput = Some (String.append "/api/chat?message=" escaped))
      by (unfold chat_url; rewrite Hesc; reflexivity).
    rewrite Hu in Hurl. destruct Hurl as (rest & -> & Hreq & _).
    exists (rest ++ [AppendMessage reply; SetIsTyping false]).
    split; [reflexivity|]. split.
    + rewrite requests_app, Hreq. reflexivity.
    + apply until_await_run; assumption.
  - intros Hnone. fold trimmedInput in Hurl.
    assert (Hu : chat_url trimmedInput = None)
      by (unfold chat_url; rewrite Hnone; reflexivity).
    rewrite Hu in Hurl. destruct Hurl as (-> & _). reflexivity.
Qed.

(** C8, as stated, fails: on a text that is not blank but holds an
    unpaired surrogate, [encodeURIComponent] throws inside the [try]; the
    call appends the user's message, clears the input, sets the flag and
    then issues no request: the error is logged and shown, and the flag
    cleared. *)
Lemma lone_surrogate_sends_no_request :
  let text := String (Latin1 "h") (String (Lone false false zero) "i") in
  let after := snd (handleSend (at_ms 1) (served (Some "hi")) (at_ms 2) (typed text)) in
  trim text <> EmptyString /\
  effects after =
    [AppendMessage (newMessage (at_ms 1) (Str text) User);
     SetInput EmptyString; SetIsTyping true;
     ConsoleError (ErrorInstance URIError_message);
     AppendMessage (newMessage (at_ms 2) (Str URIError_message) Error);
     SetIsTyping false] /\
  ~ (exists url : string, In (Fetch url) (effects after)).
Proof.
  cbv zeta. split; [discriminate|]. split; [reflexivity|].
  intros (url & Hin). cbn in Hin.
  repeat (destruct Hin as [Hin | Hin]; [discriminate Hin|]). exact Hin.
Qed.

Lemma handleSend_blank_noop_run
    (c1 : Clock) (o : FetchOutcome) (c2 : Clock) (r : Run) :
  trim (input (state r)) = EmptyString ->
  handleSend c1 o c2 r = (inl tt, r).
Proof.
  intros H. rewrite handleSend_phases. unfold bind.
  rewrite (until_await_noop c1 c2 r H). reflexivity.
Qed.

(** C9. When the input is empty after trimming (empty, or white space
    only), [handleSend] is a no-op: the state, and with it the transcript
    and [isTyping], is the one before, no effect is performed and so no
    request is issued; the same holds for the click and the key press that
    would trigger it. *)
Theorem handleSend_blank_noop
    (c1 : Clock) (o : FetchOutcome) (c2 : Clock) (r : Run)
    (Hinput : trim (input (state r)) = EmptyString) :
  handleSend c1 o c2 r = (inl tt, r) /\
  handleSend_until_await c1 c2 r = (inl false, r) /\
  (forall pending : list string,
     let w := {| widget := state r; inflight := pending |} in
     step (Click c1 c2) w = w /\
     forall (key : string) (shiftKey : bool), step (KeyDown key shiftKey c1 c2) w = w).
Proof.
  assert (Hsync : forall es,
            handleSend_until_await c1 c2 {| state := state r; effects := es |}
            = (inl false, {| state := state r; effects := es |})).
  { intros es. apply until_await_noop. exact Hinput. }
  split; [|split].
  - apply handleSend_blank_noop_run. exact Hinput.
  - apply until_await_noop. exact Hinput.
  - intros pending w. split.
    + unfold step, button_disabled. subst w. cbn [widget]. rewrite Hinput. reflexivity.
    + intros key shiftKey. unfold step, input_disabled. subst w. cbn [widget].
      destruct (isTyping (state r)); [reflexivity|].
      unfold dispatch, handleKeyDown. cbn [widget inflight].
      destruct (String.eqb key "Enter" && negb shiftKey).
      * rewrite Hsync. cbn. rewrite app_nil_r. reflexivity.
      * cbn. rewrite app_nil_r. reflexivity.
Qed.

(** The empty-after-trimming inputs are the empty string and the strings
    of white space. *)
Lemma handleSend_blank_inputs (s : string) :
  trim s = EmptyString <-> blank s = true.
Proof. apply trim_empty_iff. Qed.

(** C10, as the code has it. When the response has a non-success status
    and its body parses to a value other than [null] whose [error] is
    absent or empty, the message appended is an [Error] one with the text
    "Failed to get response". That text is not the catch-all one, which the
    [catch] block shows exactly for a thrown value that is not an [Error]
    instance; an [Error] instance shows its own message. *)
Theorem handleSend_failed_to_get_response
    (c1 : Clock) (res : Response) (data : Body) (c2 : Clock) (r : Run) (url : string)
    (Hinput : trim (input (state r)) <> EmptyString)
    (Hurl : chat_url (trim (input (state r))) = Some url)
    (Hstatus : ok res = false)
    (Hbody : body res = JsonResolves data)
    (Herror : error data = Undefined \/ error data = Str EmptyString) :
  exists sent shown : Message,
    text sent = Str (trim (input (state r))) /\ sender sent = User /\
    text shown = Str "Failed to get response" /\ sender shown = Error /\
    id shown = now c2 /\
    messages (state (snd (handleSend c1 (FetchResolves res) c2 r))) =
      messages (state r) ++ [sent; shown] /\
    (forall r' : Run,
       messages (state (snd (handleSend_resume (FetchResolves res) c2 r'))) =
         messages (state r') ++ [shown]) /\
    "Failed to get response" <> fallback_text /\
    fallback_text = "Sorry, something went wrong. Please try again." /\
    (forall (awaited : M Response) (err : Thrown) (r0 r1 : Run),
       try_block awaited c2 r0 = (inr err, r1) ->
       exists caught : Message,
         text caught =
           Str match err with
               | ErrorInstance m => m
               | NonError => "Sorry, something went wrong. Please try again."
               end /\
         sender caught = Error /\
         messages (state (snd (try_catch (try_block awaited c2) (on_catch c2) r0))) =
           messages (state r1) ++ [caught]).
Proof.
  set (shown := newMessage c2 (Str "Failed to get response") Error).
  assert (Hres : forall r' : Run,
            handleSend_resume (FetchResolves res) c2 r' =
            (inl tt,
             {| state := {| messages := messages (state r') ++ [shown];
                            input := input (state r'); isTyping := false |};
                effects := effects r' ++
                  [ConsoleError (ErrorInstance "Failed to get response");
                   AppendMessage shown; SetIsTyping false] |})).
  { intros [[ms inp ty] es]. destruct res as [st b]. cbn [body] in Hbody. subst b.
    run_handler. rewrite Hstatus. cbn.
    destruct Herror as [-> | ->]; cbn; rewrite <- !app_assoc; reflexivity. }
  exists (newMessage c1 (Str (trim (input (state r)))) User), shown.
  repeat split.
  - rewrite handleSend_phases. unfold bind at 1.
    rewrite (until_await_run c1 c2 r url Hinput Hurl), Hres. cbn [snd state messages].
    rewrite <- app_assoc. reflexivity.
  - intros r'. rewrite Hres. reflexivity.
  - discriminate.
  - intros awaited err r0 r1 Hthrow.
    exists (newMessage c2 (Str (catch_text err)) Error).
    split; [destruct err; reflexivity|]. split; [reflexivity|].
    unfold try_catch. rewrite Hthrow. reflexivity.
Qed.

(** C10, as stated, fails: a body that parses, to [null], has no [error],
    yet reading [errorData.error] throws a [TypeError] and the entry shows
    the message of that error, not "Failed to get response". *)
Lemma null_body_shows_type_error :
  let res := {| status := 500; body := JsonResolvesNull |} in
  let after := snd (handleSend (at_ms 1) (FetchResolves res) (at_ms 2) (typed "hello")) in
  ok res = false /\
  map sender (messages (state after)) = [User; Error] /\
  map text (messages (state after)) = [Str "hello"; Str TypeError_message] /\
  ~ (exists m : Message,
       In m (messages (state after)) /\ text m = Str "Failed to get response").
Proof.
  cbv zeta. split; [reflexivity|]. split; [reflexivity|]. split; [reflexivity|].
  intros (m & Hin & Htext). cbn in Hin.
  destruct Hin as [<- | [<- | []]]; discriminate Htext.
Qed.

(** C5, as stated, fails: a request that fails on the network rejects with
    a [TypeError], an [Error] instance, and the entry shows its message; no
    entry of the transcript carries the fallback text. *)
Lemma fetch_rejects_shows_error_message :
  let after :=
    snd (handleSend (at_ms 1) (FetchRejects (ErrorInstance "Failed to fetch")) (at_ms 2)
           (typed "hello")) in
  map text (messages (state after)) = [Str "hello"; Str "Failed to fetch"] /\
  map sender (messages (state after)) = [User; Error] /\
  ~ (exists m : Message,
       In m (messages (state after)) /\ sender m = Error /\ text m = Str fallback_text).
Proof.
  cbv zeta. split; [reflexivity|]. split; [reflexivity|].
  intros (m & Hin & _ & Htext). cbn in Hin.
  destruct Hin as [<- | [<- | []]]; discriminate Htext.
Qed.

(** A body that is not JSON is shown the same way: the message of the
    rejection of [response.json()]. *)
Lemma handleSend_json_rejects (st : Z) (e : Thrown) (c2 : Clock) (r : Run) :
  messages (state (snd (handleSend_resume
                          (FetchResolves {| status := st; body := JsonRejects e |}) c2 r))) =
  messages (state r) ++ [newMessage c2 (Str (catch_text e)) Error].
Proof.
  destruct r as [[ms inp ty] es].
  destruct (ok {| status := st; body := JsonRejects e |}) eqn:Hok;
    run_handler; rewrite Hok; reflexivity.
Qed.

(** The ids of the two messages of a call are the two clock readings. *)
Lemma handleSend_ids (c1 : Clock) (o : FetchOutcome) (c2 : Clock) (r : Run) :
  trim (input (state r)) <> EmptyString ->
  map id (messages (state (snd (handleSend c1 o c2 r)))) =
  map id (messages (state r)) ++ [now c1; now c2].
Proof.
  intros H.
  destruct (handleSend_run c1 o c2 r H) as (reply & later & Hall & Hid & _).
  rewrite Hall. cbn [snd state messages].
  rewrite map_app. cbn. rewrite Hid. reflexivity.
Qed.

(** *** Witnesses: the theorems above at concrete inputs *)

Lemma handleSend_appends_user_then_reply_witness :
  trim (input (state (typed "  Hello "))) <> EmptyString /\
  exists sent reply : Message,
    text sent = Str "Hello" /\ sender sent = User /\
    (sender reply = Bot \/ sender reply = Error) /\
    messages (state (snd (handleSend (at_ms 1) (served (Some "Hello")) (at_ms 2)
                            (typed "  Hello ")))) =
    [sent; reply].
Proof.
  assert (H : trim (input (state (typed "  Hello "))) <> EmptyString)
    by (vm_compute; discriminate).
  split; [exact H|].
  destruct (handleSend_appends_user_then_reply
              (at_ms 1) (served (Some "Hello")) (at_ms 2) (typed "  Hello ") H)
    as (sent & reply & Ht & Hu & _ & Hs & _ & Hm & _).
  exists sent, reply. repeat split; assumption.
Defined.

Lemma handleSend_clears_isTyping_witness :
  trim (input (state (typed "error"))) <> EmptyString /\
  isTyping (state (snd (handleSend (at_ms 1) (served (Some "error")) (at_ms 2)
                          (typed "error")))) = false.
Proof.
  assert (H : trim (input (state (typed "error"))) <> EmptyString)
    by (vm_compute; discriminate).
  split; [exact H|].
  exact (proj1 (proj2 (proj2
    (handleSend_clears_isTyping (at_ms 1) (served (Some "error")) (at_ms 2)
       (typed "error") H)))).
Defined.

Lemma handleSend_fetch_rejects_witness :
  trim (input (state (typed "hello"))) <> EmptyString /\
  chat_url (trim (input (state (typed "hello")))) = Some "/api/chat?message=hello" /\
  messages (state (snd (handleSend (at_ms 1) (FetchRejects NonError) (at_ms 2)
                          (typed "hello")))) =
  [newMessage (at_ms 1) (Str "hello") User;
   newMessage (at_ms 2) (Str "Sorry, something went wrong. Please try again.") Error].
Proof.
  assert (H : trim (input (state (typed "hello"))) <> EmptyString)
    by (vm_compute; discriminate).
  split; [exact H|]. split; [reflexivity|].
  rewrite (proj1 (handleSend_fetch_rejects (at_ms 1) NonError (at_ms 2) (typed "hello")
                    "/api/chat?message=hello" H eq_refl)).
  reflexivity.
Defined.

Lemma handleSend_effects_in_order_witness :
  trim (input (state (typed " what is your name? "))) <> EmptyString /\
  exists sent : Message,
    text sent = Str "what is your name?" /\ sender sent = User /\
    effects (snd (handleSend_until_await (at_ms 1) (at_ms 2)
                    (typed " what is your name? "))) =
    [AppendMessage sent; SetInput EmptyString; SetIsTyping true;
     Fetch "/api/chat?message=what%20is%20your%20name%3F"].
Proof.
  assert (H : trim (input (state (typed " what is your name? "))) <> EmptyString)
    by (vm_compute; discriminate).
  split; [exact H|].
  destruct (handleSend_effects_in_order
              (at_ms 1) (served (Some "what is your name?")) (at_ms 2)
              (typed " what is your name? ") H)
    as (sent & later & Ht & Hs & _ & Hurl & _).
  exists sent. split; [exact Ht|]. split; [exact Hs|].
  destruct (Hurl "what%20is%20your%20name%3F" eq_refl) as (rest & _ & _ & Hrun).
  rewrite Hrun. reflexivity.
Defined.

Lemma handleSend_blank_noop_witness :
  trim (input (state (typed "   "))) = EmptyString /\
  handleSend (at_ms 1) (served (Some "   ")) (at_ms 2) (typed "   ") =
  (inl tt, typed "   ").
Proof.
  assert (H : trim (input (state (typed "   "))) = EmptyString) by reflexivity.
  split; [exact H|].
  exact (proj1 (handleSend_blank_noop (at_ms 1) (served (Some "   ")) (at_ms 2)
                  (typed "   ") H)).
Defined.

Lemma handleSend_failed_to_get_response_witness :
  exists sent shown : Message,
    text shown = Str "Failed to get response" /\ sender shown = Error /\
    messages (state (snd (handleSend (at_ms 1)
                            (FetchResolves {| status := 502;
                                              body := JsonResolves (mkBody Undefined Undefined) |})
                            (at_ms 2) (typed "hello")))) =
    [sent; shown].
Proof.
  destruct (handleSend_failed_to_get_response
              (at_ms 1)
              {| status := 502; body := JsonResolves (mkBody Undefined Undefined) |}
              (mkBody Undefined Undefined) (at_ms 2) (typed "hello")
              "/api/chat?message=hello")
    as (sent & shown & _ & _ & Ht & Hs & _ & Hm & _).
  - vm_compute; discriminate.
  - reflexivity.
  - reflexivity.
  - reflexivity.
  - left; reflexivity.
  - exists sent, shown. repeat split; assumption.
Defined.

End WidgetFacts.

(** ** The Widget as a machine: what the events can reach *)

Module ComponentFacts.

Import Widget WidgetFacts.
Local Open Scope list_scope.

Lemma dispatch_send (c c' : Clock) (w : World) (url : string) :
  trim (input (widget w)) <> EmptyString ->
  chat_url (trim (input (widget w))) = Some url ->
  dispatch (handleSend_until_await c c') w =
  {| widget := {| messages := messages (widget w) ++
                              [newMessage c (Str (trim (input (widget w)))) User];
                  input := EmptyString;
                  isTyping := true |};
     inflight := inflight w ++ [url] |}.
Proof.
  intros H Hurl. unfold dispatch.
  rewrite (until_await_run c c' {| state := widget w; effects := [] |} url H Hurl).
  reflexivity.
Qed.

Lemma dispatch_send_throws (c c' : Clock) (w : World) :
  trim (input (widget w)) <> EmptyString ->
  chat_url (trim (input (widget w))) = None ->
  dispatch (handleSend_until_await c c') w =
  {| widget := {| messages := messages (widget w) ++
                              [newMessage c (Str (trim (input (widget w)))) User;
                               newMessage c' (Str URIError_message) Error];
                  input := EmptyString;
                  isTyping := false |};
     inflight := inflight w |}.
Proof.
  intros H Hurl. unfold dispatch.
  rewrite (until_await_throws c c' {| state := widget w; effects := [] |} H Hurl).
  cbn. rewrite app_nil_r. reflexivity.
Qed.

Lemma dispatch_send_noop (c c' : Clock) (w : World) :
  trim (input (widget w)) = EmptyString ->
  dispatch (handleSend_until_await c c') w = w.
Proof.
  intros H. unfold dispatch.
  rewrite (until_await_noop c c' {| state := widget w; effects := [] |} H).
  destruct w as [st fl]. cbn. rewrite app_nil_r. reflexivity.
Qed.

Lemma dispatch_resume (o : FetchOutcome) (c : Clock) :
  exists reply : Message,
    id reply = now c /\
    (sender reply = Bot \/ sender reply = Error) /\
    forall w : World,
      dispatch (handleSend_resume o c) w =
      {| widget := {| messages := messages (widget w) ++ [reply];
                      input := input (widget w);
                      isTyping := false |};
         inflight := inflight w |}.
Proof.
  destruct (resume_run o c) as (reply & later & Heq & Hid & Hs & Hreq & _).
  exists reply. split; [exact Hid|]. split; [exact Hs|].
  intros w. unfold dispatch. rewrite Heq. cbn [snd state effects app].
  rewrite requests_app, Hreq. cbn. rewrite app_nil_r. reflexivity.
Qed.

(** What one event does, case by case. *)
Lemma step_cases (ev : Event) (w : World) :
  step ev w = w \/
  (exists v : string,
     ev = Change v /\ isTyping (widget w) = false /\
     step ev w = {| widget := {| messages := messages (widget w); input := v;
                                 isTyping := false |};
                    inflight := inflight w |}) \/
  (exists (c c' : Clock) (url : string),
     event_clocks ev = [c; c'] /\ isTyping (widget w) = false /\
     trim (input (widget w)) <> EmptyString /\
     chat_url (trim (input (widget w))) = Some url /\
     step ev w =
     {| widget := {| messages := messages (widget w) ++
                                 [newMessage c (Str (trim (input (widget w)))) User];
                     input := EmptyString; isTyping := true |};
        inflight := inflight w ++ [url] |}) \/
  (exists c c' : Clock,
     event_clocks ev = [c; c'] /\ isTyping (widget w) = false /\
     trim (input (widget w)) <> EmptyString /\
     chat_url (trim (input (widget w))) = None /\
     step ev w =
     {| widget := {| messages := messages (widget w) ++
                                 [newMessage c (Str (trim (input (widget w)))) User;
                                  newMessage c' (Str URIError_message) Error];
                     input := EmptyString; isTyping := false |};
        inflight := inflight w |}) \/
  (exists (o : FetchOutcome) (c : Clock) (url : string) (rest : list string)
          (reply : Message),
     ev = Settle o c /\ inflight w = url :: rest /\ id reply = now c /\
     (sender reply = Bot \/ sender reply = Error) /\
     step ev w = {| widget := {| messages := messages (widget w) ++ [reply];
                                 input := input (widget w); isTyping := false |};
                    inflight := rest |}).
Proof.
  assert (Hsend : forall c c', isTyping (widget w) = false ->
            dispatch (handleSend_until_await c c') w = w \/
            (exists url,
               trim (input (widget w)) <> EmptyString /\
               chat_url (trim (input (widget w))) = Some url /\
               dispatch (handleSend_until_await c c') w =
               {| widget := {| messages := messages (widget w) ++
                                 [newMessage c (Str (trim (input (widget w)))) User];
                               input := EmptyString; isTyping := true |};
                  inflight := inflight w ++ [url] |}) \/
            (trim (input (widget w)) <> EmptyString /\
             chat_url (trim (input (widget w))) = None /\
             dispatch (handleSend_until_await c c') w =
             {| widget := {| messages := messages (widget w) ++
                               [newMessage c (Str (trim (input (widget w)))) User;
                                newMessage c' (Str URIError_message) Error];
                             input := EmptyString; isTyping := false |};
                inflight := inflight w |})).
  { intros c c' _. destruct (string_dec (trim (input (widget w))) EmptyString) as [He | Hne].
    - left. apply dispatch_send_noop. exact He.
    - right. destruct (chat_url (trim (input (widget w)))) as [url|] eqn:Hu.
      + left. exists url. repeat split; [exact Hne | apply dispatch_send; assumption].
      + right. repeat split; [exact Hne | apply dispatch_send_throws; assumption]. }
  destruct ev as [v | key shiftKey c c' | c c' | o c]; unfold step.
  - unfold input_disabled. destruct (isTyping (widget w)) eqn:Hty; [left; reflexivity|].
    right; left. exists v. repeat split.
    unfold dispatch. cbn. rewrite Hty, app_nil_r. reflexivity.
  - unfold input_disabled. destruct (isTyping (widget w)) eqn:Hty; [left; reflexivity|].
    unfold handleKeyDown. destruct (String.eqb key "Enter" && negb shiftKey).
    + destruct (Hsend c c' eq_refl) as [H | [(url & Hne & Hu & H) | (Hne & Hu & H)]].
      * left; exact H.
      * right; right; left. exists c, c', url. repeat split; assumption.
      * right; right; right; left. exists c, c'. repeat split; assumption.
    + left. unfold dispatch. cbn. rewrite app_nil_r. destruct w; reflexivity.
  - unfold button_disabled. destruct (isTyping (widget w)) eqn:Hty.
    + rewrite orb_true_r. left; reflexivity.
    + destruct (negb (truthy_string (trim (input (widget w))))); cbn [orb];
        [left; reflexivity|].
      destruct (Hsend c c' eq_refl) as [H | [(url & Hne & Hu & H) | (Hne & Hu & H)]].
      * left; exact H.
      * right; right; left. exists c, c', url. repeat split; assumption.
      * right; right; right; left. exists c, c'. repeat split; assumption.
  - destruct (inflight w) as [|url rest] eqn:Hfl; [left; reflexivity|].
    destruct (dispatch_resume o c) as (reply & Hid & Hs & Heq).
    right; right; right; right. exists o, c, url, rest, reply.
    rewrite Heq. repeat split; assumption.
Qed.

Lemma step_keeps_settled_or_single (ev : Event) (w : World) :
  settled_or_single w -> settled_or_single (step ev w).
Proof.
  unfold settled_or_single. intros Hw.
  destruct (step_cases ev w)
    as [-> | [(v & _ & Hty & ->) | [(c & c' & url & _ & Hty & _ & _ & ->)
       | [(c & c' & _ & Hty & _ & _ & ->)
       | (o & c & url & rest & reply & _ & Hfl & _ & _ & ->)]]]];
    cbn [widget isTyping input inflight].
  - exact Hw.
  - rewrite Hty in Hw. exact Hw.
  - rewrite Hty in Hw. rewrite Hw. split; [reflexivity | eexists; reflexivity].
  - rewrite Hty in Hw. exact Hw.
  - rewrite Hfl in Hw. destruct (isTyping (widget w)); [|discriminate Hw].
    destruct Hw as [_ [url' Hu]]. injection Hu as _ ->. reflexivity.
Qed.

Lemma reachable_settled_or_single (w : World) :
  reachable w -> settled_or_single w.
Proof.
  induction 1 as [|ev w _ IH].
  - reflexivity.
  - apply step_keeps_settled_or_single. exact IH.
Qed.

Lemma reachable_run (evs : list Event) (w : World) :
  reachable w -> reachable (run evs w).
Proof.
  revert w. induction evs as [|ev evs IH]; intros w Hw; [exact Hw|].
  cbn. apply IH. apply reachable_step. exact Hw.
Qed.

(** A step leaves the transcript alone or appends one or two messages,
    whose ids are the readings of the clocks of the event, in order. *)
Lemma step_messages (ev : Event) (w : World) :
  exists new : list Message,
    messages (widget (step ev w)) = messages (widget w) ++ new /\
    (new = [] \/
     (exists (c : Clock) (rest : list Clock) (m : Message),
        event_clocks ev = c :: rest /\ new = [m] /\ id m = now c) \/
     (exists (c c' : Clock) (m m' : Message),
        event_clocks ev = [c; c'] /\ new = [m; m'] /\ id m = now c /\ id m' = now c')).
Proof.
  destruct (step_cases ev w)
    as [-> | [(v & _ & Hty & ->) | [(c & c' & url & Hev & Hty & _ & _ & ->)
       | [(c & c' & Hev & Hty & _ & _ & ->)
       | (o & c & url & rest & reply & -> & Hfl & Hid & _ & ->)]]]];
    cbn [widget messages].
  - exists []. rewrite app_nil_r. auto.
  - exists []. rewrite app_nil_r. auto.
  - eexists. split; [reflexivity|]. right; left.
    exists c, [c'], (newMessage c (Str (trim (input (widget w)))) User). auto.
  - eexists. split; [reflexivity|]. right; right.
    exists c, c', (newMessage c (Str (trim (input (widget w)))) User),
      (newMessage c' (Str URIError_message) Error). auto.
  - exists [reply]. split; [reflexivity|]. right; left.
    exists c, [], reply. auto.
Qed.

Lemma last_nonempty (l : list Z) (y d d' : Z) : last (y :: l) d = last (y :: l) d'.
Proof.
  revert y. induction l as [|z l IH]; intros y; [reflexivity|].
  cbn [last]. cbn [last] in IH. apply (IH z).
Qed.

Lemma increasing_app (t : Z) (l1 l2 : list Z) :
  Transcript.increasing t (l1 ++ l2) =
  Transcript.increasing t l1 && Transcript.increasing (last l1 t) l2.
Proof.
  revert t. induction l1 as [|x l1 IH]; intros t; [reflexivity|].
  cbn [Transcript.increasing app]. rewrite IH, andb_assoc.
  destruct l1 as [|z l1]; [reflexivity|].
  change (last (x :: z :: l1) t) with (last (z :: l1) t).
  rewrite (last_nonempty l1 z x t). reflexivity.
Qed.

Lemma increasing_last (t : Z) (l : list Z) :
  Transcript.increasing t l = true -> t <= last l t.
Proof.
  revert t. induction l as [|x l IH]; intros t H; [cbn; lia|].
  cbn [Transcript.increasing] in H. apply andb_true_iff in H. destruct H as [Hx Hl].
  apply Z.ltb_lt in Hx. specialize (IH x Hl).
  destruct l as [|y l]; [cbn; lia|].
  change (last (x :: y :: l) t) with (last (y :: l) t).
  rewrite (last_nonempty l y t x). lia.
Qed.

Lemma NoDup_snoc (l : list Z) (x : Z) :
  NoDup l -> (forall y, In y l -> y < x) -> NoDup (l ++ [x]).
Proof.
  intros Hnd Hlt. apply NoDup_rev in Hnd. rewrite <- (rev_involutive (l ++ [x])).
  apply NoDup_rev. rewrite rev_app_distr. cbn. constructor; [|exact Hnd].
  rewrite <- in_rev. intros Hin. specialize (Hlt x Hin). lia.
Qed.

(** The ids stay distinct across a step whose clock readings increase from
    above every id of the transcript, and they stay below the last of
    them. *)
Lemma step_keeps_ids_distinct (ev : Event) (w : World) (t : Z) :
  NoDup (map id (messages (widget w))) ->
  (forall m : Message, In m (messages (widget w)) -> id m <= t) ->
  Transcript.increasing t (map now (event_clocks ev)) = true ->
  NoDup (map id (messages (widget (step ev w)))) /\
  (forall m : Message,
     In m (messages (widget (step ev w))) ->
     id m <= last (map now (event_clocks ev)) t).
Proof.
  intros Hnd Hbound Hinc.
  pose proof (increasing_last _ _ Hinc) as Hlast.
  assert (Hids : forall y, In y (map id (messages (widget w))) -> y <= t).
  { intros y Hy. apply in_map_iff in Hy. destruct Hy as (m & <- & Hm). auto. }
  destruct (step_messages ev w)
    as (new & -> & [-> | [(c & rest & m & Hev & -> & Hid)
                        | (c & c' & m & m' & Hev & -> & Hid & Hid')]]).
  - rewrite app_nil_r. split; [exact Hnd|]. intros m Hm. specialize (Hbound m Hm). lia.
  - rewrite Hev in *. cbn [map Transcript.increasing] in Hinc.
    apply andb_true_iff in Hinc. destruct Hinc as [Hc Hrest]. apply Z.ltb_lt in Hc.
    split.
    + rewrite map_app. cbn [map]. apply NoDup_snoc; [exact Hnd|].
      intros y Hy. specialize (Hids y Hy). lia.
    + assert (Hl : now c <= last (map now (c :: rest)) t).
      { pose proof (increasing_last _ _ Hrest) as Hr. cbn [map].
        destruct (map now rest) as [|z zs]; [cbn; lia|].
        change (last (now c :: z :: zs) t) with (last (z :: zs) t).
        rewrite (last_nonempty zs z t (now c)). exact Hr. }
      intros m0 Hm0. apply in_app_or in Hm0. destruct Hm0 as [Hm0 | [<- | []]].
      * specialize (Hbound m0 Hm0). lia.
      * lia.
  - rewrite Hev in *. cbn [map Transcript.increasing last] in *.
    rewrite andb_true_r in Hinc.
    apply andb_true_iff in Hinc. destruct Hinc as [Hc Hc'].
    apply Z.ltb_lt in Hc. apply Z.ltb_lt in Hc'.
    split.
    + rewrite map_app. cbn [map].
      change [id m; id m'] with ([id m] ++ [id m']). rewrite app_assoc.
      apply NoDup_snoc.
      * apply NoDup_snoc; [exact Hnd|]. intros y Hy. specialize (Hids y Hy). lia.
      * intros y Hy. apply in_app_or in Hy. destruct Hy as [Hy | [<- | []]].
        -- specialize (Hids y Hy). lia.
        -- lia.
    + intros m0 Hm0. apply in_app_or in Hm0.
      destruct Hm0 as [Hm0 | [<- | [<- | []]]].
      * specialize (Hbound m0 Hm0). lia.
      * lia.
      * lia.
Qed.

(** C4 fails on the code: the id of a message is the reading of
    [Date.now()] at its creation, so the user's message and the reply of an
    exchange that settles within one tick of the clock carry the same id. *)
Theorem ids_collide_within_one_tick :
  let w := run [Change "hello"; Click (at_ms 1000) (at_ms 1000);
                Settle (served (Some "hello")) (at_ms 1000)]
               mount in
  reachable w /\
  map sender (messages (widget w)) = [User; Bot] /\
  map id (messages (widget w)) = [1000; 1000] /\
  ~ NoDup (map id (messages (widget w))).
Proof.
  cbv zeta. split; [apply reachable_run, reachable_mount|].
  split; [reflexivity|]. split; [reflexivity|].
  intros Hnd. inversion Hnd as [|x l Hnotin _]. apply Hnotin. left. reflexivity.
Qed.

(** The scenarios of the specification, run through the machine. *)
Example scenario_hello :
  let w := run [Change "Hello"; KeyDown "Enter" false (at_ms 1) (at_ms 2);
                Settle (served (Some "Hello")) (at_ms 5)] mount in
  map (fun m => (sender m, text m)) (messages (widget w)) =
    [(User, Str "Hello"); (Bot, Str "Hello! How can I help you today?")] /\
  isTyping (widget w) = false /\ input (widget w) = EmptyString /\ inflight w = [].
Proof. repeat split. Qed.

Example scenario_error :
  let w := run [Change "error"; Click (at_ms 1) (at_ms 2);
                Settle (served (Some "error")) (at_ms 5)] mount in
  map (fun m => (sender m, text m)) (messages (widget w)) =
    [(User, Str "error"); (Error, Str "Something went wrong")] /\
  isTyping (widget w) = false.
Proof. repeat split. Qed.

Example scenario_banana :
  let w := run [Change " banana "; Click (at_ms 1) (at_ms 2);
                Settle (served (Some "banana")) (at_ms 5)] mount in
  map (fun m => (sender m, text m)) (messages (widget w)) =
    [(User, Str "banana"); (Bot, Str "Sorry, I didn't understand that.")] /\
  isTyping (widget w) = false.
Proof. repeat split. Qed.

(** Shift+Enter and any other key send nothing; typing while a reply is
    awaited is not delivered. *)
Example scenario_modified_key :
  run [Change "hello"; KeyDown "Enter" true (at_ms 1) (at_ms 2);
       KeyDown "a" false (at_ms 3) (at_ms 4)] mount =
  run [Change "hello"] mount /\
  run [Change "hello"; Click (at_ms 1) (at_ms 2); Change "again";
       Click (at_ms 3) (at_ms 4)] mount =
  run [Change "hello"; Click (at_ms 1) (at_ms 2)] mount.
Proof. repeat split. Qed.

(** A text with an unpaired surrogate is answered on the spot: the send
    shows the [URIError] and leaves nothing in flight. *)
Example scenario_lone_surrogate :
  let w := run [Change (String (Lone false false zero) "x");
                Click (at_ms 1) (at_ms 2)] mount in
  map (fun m => (sender m, text m)) (messages (widget w)) =
    [(User, Str (String (Lone false false zero) "x")); (Error, Str URIError_message)] /\
  isTyping (widget w) = false /\ inflight w = [].
Proof. repeat split. Qed.

End ComponentFacts.

(** ** More on the Responder *)

Module ResponderCases.

Import Responder ResponderFacts.

Lemma lower_idempotent (u : unit16) : lower (lower u) = lower u.
Proof.
  destruct u as [c | b9 b8 lo].
  - destruct c as [[] [] [] [] [] [] [] []]; reflexivity.
  - rewrite !(proj1 (proj2 (Lone_units b9 b8 lo))). reflexivity.
Qed.

Lemma toLowerCase_idempotent (s : string) :
  toLowerCase (toLowerCase s) = toLowerCase s.
Proof.
  induction s as [|c s IH]; simpl; [reflexivity|].
  rewrite lower_idempotent, IH. reflexivity.
Qed.

Lemma toLowerCase_length (s : string) :
  String.length (toLowerCase s) = String.length s.
Proof.
  induction s as [|c s IH]; simpl; [reflexivity | rewrite IH; reflexivity].
Qed.

Lemma toLowerCase_truthy (s : string) :
  truthy_string (toLowerCase s) = truthy_string s.
Proof. destruct s; reflexivity. Qed.

(** The answer depends on the message through its lower-cased form only. *)
Lemma GET_of_key (m : string) :
  GET (Some m) =
  if negb (truthy_string (toLowerCase m))
  then NextResponse_json (failure "Missing message query") (Some 400)
  else if String.eqb (toLowerCase m) "hello"
  then NextResponse_json (reply "Hello! How can I help you today?") None
  else if String.eqb (toLowerCase m) "what is your name?"
  then NextResponse_json (reply "I'm a chatbot built by MAS.") None
  else if String.eqb (toLowerCase m) "error"
  then NextResponse_json (failure "Something went wrong") (Some 500)
  else NextResponse_json (reply "Sorry, I didn't understand that.") None.
Proof. unfold GET. rewrite toLowerCase_truthy. reflexivity. Qed.

(** X1. Two messages that differ only in the case of their letters get the
    same response, status and body; in particular a message and its
    lower-cased form do. *)
Theorem GET_respects_case (m1 m2 : string)
    (Hcase : toLowerCase m1 = toLowerCase m2) :
  GET (Some m1) = GET (Some m2) /\
  GET (Some (toLowerCase m1)) = GET (Some m1).
Proof.
  split.
  - rewrite (GET_of_key m1), (GET_of_key m2), Hcase. reflexivity.
  - rewrite (GET_of_key (toLowerCase m1)), (GET_of_key m1), toLowerCase_idempotent.
    reflexivity.
Qed.

Lemma GET_respects_case_witness :
  GET (Some "wHAT iS yOUR nAME?") = GET (Some "What is your name?").
Proof.
  exact (proj1 (GET_respects_case "wHAT iS yOUR nAME?" "What is your name?" eq_refl)).
Defined.

(** X2. Every response of the Responder has a body that parses, with
    exactly one of the two properties, a non-empty string: [response] and
    no [error] when the status is [ok] (then 200), [error] and no
    [response] when it is not (then 400 or 500). *)
Theorem GET_one_payload (message : option string) :
  exists text : string,
    text <> EmptyString /\
    ((ok (GET message) = true /\ status (GET message) = 200 /\
      body (GET message) = JsonResolves {| error := Undefined; response := Str text |}) \/
     (ok (GET message) = false /\
      (status (GET message) = 400 \/ status (GET message) = 500) /\
      body (GET message) = JsonResolves {| error := Str text; response := Undefined |})).
Proof.
  destruct message as [m|]; [rewrite GET_of_key|];
    repeat match goal with
           | |- context [if ?b then _ else _] => destruct b
           end;
    eexists; (split; [|first [left; repeat split; reflexivity
                            | right; repeat split; first [reflexivity | left; reflexivity
                                                        | right; reflexivity]]]);
    discriminate.
Qed.

(** X3. The status tells the three cases apart: 400 exactly for an absent
    or empty message, 500 exactly for a message that lower-cases to
    "error", and 200 for every other message. *)
Theorem GET_status_cases (message : option string) :
  (status (GET message) = 400 <-> message = None \/ message = Some EmptyString) /\
  (status (GET message) = 500 <->
   exists m : string, message = Some m /\ toLowerCase m = "error") /\
  (status (GET message) = 200 <->
   exists m : string, message = Some m /\ m <> EmptyString /\ toLowerCase m <> "error").
Proof.
  destruct message as [m|].
  - rewrite GET_of_key. rewrite toLowerCase_truthy.
    destruct m as [|c s].
    + cbn. repeat split; try discriminate; auto.
      * intros (m & Hm & He). injection Hm as <-. discriminate He.
      * intros (m & Hm & Hne & _). injection Hm as <-. congruence.
    + cbn [truthy_string negb].
      destruct (eqb_spec (toLowerCase (String c s)) "error") as [He | He].
      * rewrite He. cbn. repeat split; try discriminate.
        -- intros [H | H]; discriminate H.
        -- intros _. exists (String c s). split; [reflexivity | exact He].
        -- intros (m & Hm & _ & Hne). injection Hm as <-. congruence.
      * destruct (String.eqb (toLowerCase (String c s)) "hello");
          [|destruct (String.eqb (toLowerCase (String c s)) "what is your name?")];
          cbn; (repeat split; try discriminate;
                [ intros [H | H]; discriminate H
                | intros (m & Hm & Hm'); injection Hm as <-; congruence
                | intros _; exists (String c s); repeat split; [discriminate | exact He] ]).
  - cbn. repeat split; try discriminate; auto.
    + intros (m & Hm & _). discriminate Hm.
    + intros (m & Hm & _). discriminate Hm.
Qed.

(** X4. The match is on the whole message: a non-empty message whose
    length is neither 5 nor 18, the lengths of the three keys, gets the
    fallback reply, whatever it contains. *)
Theorem GET_whole_message_only (m : string)
    (Hm : m <> EmptyString)
    (H5 : String.length m <> 5%nat)
    (H18 : String.length m <> 18%nat) :
  GET (Some m) =
  {| status := 200;
     body := JsonResolves {| error := Undefined;
                             response := Str "Sorry, I didn't understand that." |} |}.
Proof.
  assert (Hkey : forall key : string,
            String.length key = 5%nat \/ String.length key = 18%nat ->
            String.eqb (toLowerCase m) key = false).
  { intros key Hk. apply eqb_neq_false. intros He.
    apply (f_equal String.length) in He. rewrite toLowerCase_length in He.
    destruct Hk; congruence. }
  apply truthy_string_true in Hm.
  rewrite GET_of_key, toLowerCase_truthy, Hm. cbn [negb].
  rewrite !Hkey by (cbn; auto). reflexivity.
Qed.

Lemma GET_whole_message_only_witness :
  GET (Some "hello, what is your name?") =
  {| status := 200;
     body := JsonResolves {| error := Undefined;
                             response := Str "Sorry, I didn't understand that." |} |}.
Proof.
  apply (GET_whole_message_only "hello, what is your name?");
    [discriminate | cbn; lia | cbn; lia].
Defined.

End ResponderCases.

(** ** More on [trim] *)

Module TrimFacts.

Lemma trimEnd_idempotent (s : string) : trimEnd (trimEnd s) = trimEnd s.
Proof.
  induction s as [|c s IH]; [reflexivity|].
  cbn [trimEnd]. destruct (trimEnd s) as [|d u] eqn:Hu.
  - destruct (isWhiteSpace c) eqn:Hc; [reflexivity|].
    cbn [trimEnd]. rewrite Hc. reflexivity.
  - cbn [trimEnd] in *. rewrite IH. reflexivity.
Qed.

Lemma trimEnd_keeps_head (c : unit16) (s : string) :
  isWhiteSpace c = false -> exists t : string, trimEnd (String c s) = String c t.
Proof.
  intros Hc. cbn [trimEnd]. destruct (trimEnd s) as [|d u].
  - rewrite Hc. eexists; reflexivity.
  - eexists; reflexivity.
Qed.

(** Trimming what is trimmed changes nothing. *)
Lemma trim_idempotent (s : string) : trim (trim s) = trim s.
Proof.
  unfold trim. pose proof (trimStart_head s) as Hh.
  destruct (trimStart s) as [|c t]; [reflexivity|].
  destruct (trimEnd_keeps_head c t Hh) as [u Hu].
  rewrite Hu. cbn [trimStart]. rewrite Hh, <- Hu. apply trimEnd_idempotent.
Qed.

Lemma blank_trimmed_empty (s : string) : blank s = false <-> trim s <> EmptyString.
Proof.
  rewrite trim_empty_iff. destruct (blank s); split; congruence.
Qed.

End TrimFacts.

(** ** More on the Widget *)

Module WidgetCases.

Import Widget WidgetFacts ComponentFacts Transcript TrimFacts.
Local Open Scope list_scope.

Lemma awaiting_after_snoc (ss : list MessageSender) (s : MessageSender) :
  awaiting_after (ss ++ [s]) = turn (awaiting_after ss) s.
Proof. unfold awaiting_after. rewrite fold_left_app. reflexivity. Qed.

Lemma step_keeps_well_formed (ev : Event) (w : World) :
  settled_or_single w -> well_formed w -> well_formed (step ev w).
Proof.
  intros Hinv (Hturn & Huser & Hlast). unfold well_formed.
  destruct (step_cases ev w)
    as [-> | [(v & _ & Hty & ->) | [(c & c' & url & _ & Hty & Hne & Hurl & ->)
       | [(c & c' & _ & Hty & Hne & Hurl & ->)
       | (o & c & url & rest & reply & _ & Hfl & _ & Hs & ->)]]]];
    cbn [widget messages isTyping inflight input].
  - repeat split; assumption.
  - rewrite Hty in Hturn. repeat split; [exact Hturn | exact Huser | discriminate].
  - rewrite Hty in Hturn. unfold settled_or_single in Hinv. rewrite Hty in Hinv.
    split; [|split].
    + rewrite map_app. cbn [map]. rewrite awaiting_after_snoc, Hturn. reflexivity.
    + intros m Hin Hm. apply in_app_or in Hin. destruct Hin as [Hin | [<- | []]].
      * apply Huser; assumption.
      * eexists. split; [reflexivity|]. split; [exact Hne | apply trim_idempotent].
    + intros _.
      exists (messages (widget w)), (newMessage c (Str (trim (input (widget w)))) User),
        (trim (input (widget w))), url.
      rewrite Hinv. repeat split. exact Hurl.
  - rewrite Hty in Hturn. split; [|split].
    + change [newMessage c (Str (trim (input (widget w)))) User;
              newMessage c' (Str URIError_message) Error]
        with ([newMessage c (Str (trim (input (widget w)))) User] ++
              [newMessage c' (Str URIError_message) Error]).
      rewrite app_assoc, !map_app. cbn [map].
      rewrite !awaiting_after_snoc, Hturn. reflexivity.
    + intros m Hin Hm. apply in_app_or in Hin.
      destruct Hin as [Hin | [<- | [<- | []]]].
      * apply Huser; assumption.
      * eexists. split; [reflexivity|]. split; [exact Hne | apply trim_idempotent].
      * discriminate Hm.
    + discriminate.
  - unfold settled_or_single in Hinv. rewrite Hfl in Hinv.
    destruct (isTyping (widget w)); [|discriminate Hinv].
    split; [|split].
    + rewrite map_app. cbn [map]. rewrite awaiting_after_snoc, Hturn.
      destruct Hs as [-> | ->]; reflexivity.
    + intros m Hin Hm. apply in_app_or in Hin. destruct Hin as [Hin | [<- | []]].
      * apply Huser; assumption.
      * destruct Hs as [Hs | Hs]; rewrite Hs in Hm; discriminate Hm.
    + discriminate.
Qed.

Lemma reachable_well_formed (w : World) : reachable w -> well_formed w.
Proof.
  induction 1 as [|ev w Hw IH].
  - repeat split; [intros m [] | discriminate].
  - apply step_keeps_well_formed; [apply reachable_settled_or_single; exact Hw | exact IH].
Qed.


(** X5. In every state the Enter key pressed without Shift does what a
    click on the send button does, and any other key press, or Enter with
    Shift, changes nothing. *)
Theorem enter_key_is_click (w : World) (c c' : Clock) :
  step (KeyDown "Enter" false c c') w = step (Click c c') w /\
  (forall (key : string) (shiftKey : bool),
     String.eqb key "Enter" = false \/ shiftKey = true ->
     step (KeyDown key shiftKey c c') w = w).
Proof.
  split.
  - unfold step, input_disabled, button_disabled, handleKeyDown.
    change (String.eqb "Enter" "Enter") with true. cbn [negb andb].
    destruct (isTyping (widget w)); [rewrite orb_true_r; reflexivity|].
    rewrite orb_false_r.
    destruct (truthy_string (trim (input (widget w)))) eqn:Ht; cbn [negb];
      [reflexivity|].
    apply dispatch_send_noop. apply truthy_string_false. exact Ht.
  - intros key shiftKey Hkey. unfold step, input_disabled, handleKeyDown.
    destruct (isTyping (widget w)); [reflexivity|].
    assert (Hno : String.eqb key "Enter" && negb shiftKey = false)
      by (destruct Hkey as [-> | ->]; [reflexivity | apply andb_false_r]).
    rewrite Hno. unfold dispatch. cbn. rewrite app_nil_r. destruct w; reflexivity.
Qed.

Lemma enter_key_is_click_witness :
  step (KeyDown "Enter" true (at_ms 1) (at_ms 2)) (run [Change "hello"] mount) =
  run [Change "hello"] mount.
Proof.
  apply (proj2 (enter_key_is_click (run [Change "hello"] mount) (at_ms 1) (at_ms 2))).
  right. reflexivity.
Defined.





(** X10. Along events whose clock readings strictly increase, from above
    every id present, the ids of the transcript stay pairwise distinct. *)
Theorem ids_distinct_while_clock_advances (evs : list Event) (t : Z) (w : World)
    (Hclock : advancing t evs = true)
    (Hbound : forall m : Message, In m (messages (widget w)) -> id m <= t)
    (Hdistinct : NoDup (map id (messages (widget w)))) :
  NoDup (map id (messages (widget (run evs w)))).
Proof.
  revert t w Hclock Hbound Hdistinct.
  induction evs as [|ev evs IH]; intros t w Hclock Hbound Hdistinct; [exact Hdistinct|].
  cbn [run fold_left]. fold (run evs (step ev w)).
  unfold advancing in Hclock. cbn [flat_map] in Hclock.
  rewrite map_app, increasing_app in Hclock.
  apply andb_true_iff in Hclock. destruct Hclock as [Hev Hrest].
  destruct (step_keeps_ids_distinct ev w t Hdistinct Hbound Hev) as [Hnd Hle].
  exact (IH _ (step ev w) Hrest Hle Hnd).
Qed.

Lemma ids_distinct_while_clock_advances_witness :
  NoDup (map id (messages (widget
    (run [Change "hello"; Click (at_ms 1000) (at_ms 1001);
          Settle (served (Some "hello")) (at_ms 1002)]
         mount)))).
Proof.
  apply (ids_distinct_while_clock_advances _ 0 mount).
  - reflexivity.
  - intros m [].
  - constructor.
Defined.

(** X13. [handleSend] leaves the run as it found it exactly when the input
    is blank (empty or white space only); on any other input it changes
    it. *)
Theorem handleSend_noop_iff_blank
    (c1 : Clock) (o : FetchOutcome) (c2 : Clock) (r : Run) :
  handleSend c1 o c2 r = (inl tt, r) <-> blank (input (state r)) = true.
Proof.
  rewrite <- trim_empty_iff. split.
  - intros Hnoop.
    destruct (string_dec (trim (input (state r))) EmptyString) as [He | Hne];
      [exact He | exfalso].
    destruct (handleSend_run c1 o c2 r Hne) as (reply & later & Hall & _).
    rewrite Hall in Hnoop.
    apply (f_equal (fun p => List.length (messages (state (snd p))))) in Hnoop.
    cbn in Hnoop. rewrite length_app in Hnoop. cbn in Hnoop. lia.
  - apply handleSend_blank_noop_run.
Qed.

End WidgetCases.

(** ** The component between renders *)

Module LiveFacts.

Import Widget WidgetFacts ComponentFacts Transcript TrimFacts WidgetCases Live.
Local Open Scope list_scope.

(** The continuation logs at most one error before it appends. *)
Lemma resume_effects (o : FetchOutcome) (c : Clock) :
  exists (reply : Message) (logged : list Effect),
    (logged = [] \/ exists e : Thrown, logged = [ConsoleError e]) /\
    id reply = now c /\
    (sender reply = Bot \/ sender reply = Error) /\
    forall r : Run,
      handleSend_resume o c r =
      (inl tt,
       {| state := {| messages := messages (state r) ++ [reply];
                      input := input (state r);
                      isTyping := false |};
          effects := effects r ++ logged ++ [AppendMessage reply; SetIsTyping false] |}).
Proof.
  destruct o as [e | [st [e | | [err resp]]]].
  - exists (newMessage c (Str (catch_text e)) Error), [ConsoleError e].
    repeat split; eauto.
    intros [[ms inp ty] es]. cbn. rewrite <- !app_assoc. reflexivity.
  - exists (newMessage c (Str (catch_text e)) Error), [ConsoleError e].
    repeat split; eauto.
    intros [[ms inp ty] es].
    destruct (ok {| status := st; body := JsonRejects e |}) eqn:Hok;
      unfold handleSend_resume, try_finally, try_catch, try_block, on_response,
        on_catch, bind; cbn; rewrite Hok; cbn; rewrite <- !app_assoc; reflexivity.
  - exists (newMessage c (Str TypeError_message) Error),
      [ConsoleError (ErrorInstance TypeError_message)].
    repeat split; eauto.
    intros [[ms inp ty] es].
    destruct (ok {| status := st; body := JsonResolvesNull |}) eqn:Hok;
      unfold handleSend_resume, try_finally, try_catch, try_block, on_response,
        on_catch, bind; cbn; rewrite Hok; cbn; rewrite <- !app_assoc; reflexivity.
  - destruct (ok {| status := st; body := JsonResolves (mkBody err resp) |}) eqn:Hok.
    + destruct (truthy err) eqn:Ht;
        [exists (newMessage c err Error), [] | exists (newMessage c resp Bot), []];
        (repeat split; eauto);
        intros [[ms inp ty] es];
        unfold handleSend_resume, try_finally, try_catch, try_block, on_response,
          on_catch, bind; cbn; rewrite Hok; cbn; rewrite Ht; cbn;
        rewrite <- !app_assoc; reflexivity.
    + exists (newMessage c (Str (or_else err "Failed to get response")) Error),
        [ConsoleError (ErrorInstance (or_else err "Failed to get response"))].
      repeat split; eauto.
      intros [[ms inp ty] es].
      unfold handleSend_resume, try_finally, try_catch, try_block, on_response,
        on_catch, bind; cbn; rewrite Hok; cbn; rewrite <- !app_assoc; reflexivity.
Qed.

(** What happens, case by case: the handlers read the rendered state and
    update the current one. *)
Lemma happen_cases (h : Happening) (l : Component) :
  happen h l = l \/
  (h = Render /\
   happen h l = {| current := current l; rendered := current l; pending := pending l |}) \/
  (exists v : string,
     h = Deliver (Change v) /\ isTyping (rendered l) = false /\
     happen h l =
     {| current := {| messages := messages (current l); input := v;
                      isTyping := isTyping (current l) |};
        rendered := rendered l; pending := pending l |}) \/
  (exists (ev : Event) (c c' : Clock) (url : string),
     h = Deliver ev /\ event_clocks ev = [c; c'] /\ isTyping (rendered l) = false /\
     trim (input (rendered l)) <> EmptyString /\
     chat_url (trim (input (rendered l))) = Some url /\
     happen h l =
     {| current := {| messages := messages (current l) ++
                                  [newMessage c (Str (trim (input (rendered l)))) User];
                      input := EmptyString; isTyping := true |};
        rendered := rendered l; pending := pending l ++ [url] |}) \/
  (exists (ev : Event) (c c' : Clock),
     h = Deliver ev /\ event_clocks ev = [c; c'] /\ isTyping (rendered l) = false /\
     trim (input (rendered l)) <> EmptyString /\
     chat_url (trim (input (rendered l))) = None /\
     happen h l =
     {| current := {| messages := messages (current l) ++
                                  [newMessage c (Str (trim (input (rendered l)))) User;
                                   newMessage c' (Str URIError_message) Error];
                      input := EmptyString; isTyping := false |};
        rendered := rendered l; pending := pending l |}) \/
  (exists (o : FetchOutcome) (c : Clock) (url : string) (rest : list string)
          (reply : Message),
     h = Deliver (Settle o c) /\ pending l = url :: rest /\ id reply = now c /\
     (sender reply = Bot \/ sender reply = Error) /\
     happen h l =
     {| current := {| messages := messages (current l) ++ [reply];
                      input := input (current l); isTyping := false |};
        rendered := rendered l; pending := rest |}).
Proof.
  assert (Hsend : forall c c', isTyping (rendered l) = false ->
            deliver (handleSend_until_await c c') l = l \/
            (exists url,
               trim (input (rendered l)) <> EmptyString /\
               chat_url (trim (input (rendered l))) = Some url /\
               deliver (handleSend_until_await c c') l =
               {| current := {| messages := messages (current l) ++
                                  [newMessage c (Str (trim (input (rendered l)))) User];
                                input := EmptyString; isTyping := true |};
                  rendered := rendered l; pending := pending l ++ [url] |}) \/
            (trim (input (rendered l)) <> EmptyString /\
             chat_url (trim (input (rendered l))) = None /\
             deliver (handleSend_until_await c c') l =
             {| current := {| messages := messages (current l) ++
                                [newMessage c (Str (trim (input (rendered l)))) User;
                                 newMessage c' (Str URIError_message) Error];
                              input := EmptyString; isTyping := false |};
                rendered := rendered l; pending := pending l |})).
  { intros c c' _. unfold deliver.
    destruct (string_dec (trim (input (rendered l))) EmptyString) as [He | Hne].
    - left. rewrite (until_await_noop c c' {| state := rendered l; effects := [] |} He).
      cbn. rewrite app_nil_r. destruct l; reflexivity.
    - right. destruct (chat_url (trim (input (rendered l)))) as [url|] eqn:Hu.
      + left. exists url. repeat split; [exact Hne|].
        rewrite (until_await_run c c' {| state := rendered l; effects := [] |} url Hne Hu).
        cbn. reflexivity.
      + right. repeat split; [exact Hne|].
        rewrite (until_await_throws c c' {| state := rendered l; effects := [] |} Hne Hu).
        cbn. rewrite app_nil_r, <- app_assoc. reflexivity. }
  destruct h as [[v | key shiftKey c c' | c c' | o c] |]; cbn [happen].
  - unfold input_disabled. destruct (isTyping (rendered l)) eqn:Hty; [left; reflexivity|].
    right; right; left. exists v. repeat split.
    unfold deliver. cbn. rewrite app_nil_r. reflexivity.
  - unfold input_disabled. destruct (isTyping (rendered l)) eqn:Hty; [left; reflexivity|].
    unfold handleKeyDown. destruct (String.eqb key "Enter" && negb shiftKey).
    + destruct (Hsend c c' eq_refl) as [H | [(url & Hne & Hu & H) | (Hne & Hu & H)]].
      * left; exact H.
      * right; right; right; left. eexists _, c, c', url. repeat split; eassumption.
      * right; right; right; right; left. eexists _, c, c'. repeat split; eassumption.
    + left. unfold deliver. cbn. rewrite app_nil_r. destruct l; reflexivity.
  - unfold button_disabled. destruct (isTyping (rendered l)) eqn:Hty.
    + rewrite orb_true_r. left; reflexivity.
    + destruct (negb (truthy_string (trim (input (rendered l))))); cbn [orb];
        [left; reflexivity|].
      destruct (Hsend c c' eq_refl) as [H | [(url & Hne & Hu & H) | (Hne & Hu & H)]].
      * left; exact H.
      * right; right; right; left. eexists _, c, c', url. repeat split; eassumption.
      * right; right; right; right; left. eexists _, c, c'. repeat split; eassumption.
  - destruct (pending l) as [|url rest] eqn:Hfl; [left; reflexivity|].
    destruct (resume_effects o c) as (reply & logged & Hlog & Hid & Hs & Heq).
    right; right; right; right; right. exists o, c, url, rest, reply.
    repeat split; try assumption.
    unfold deliver. rewrite Heq. cbn [current rendered pending effects snd app].
    destruct Hlog as [-> | [e ->]]; cbn; rewrite app_nil_r; reflexivity.
  - right; left. split; reflexivity.
Qed.

Lemma deliver_until_await (c c' : Clock) (w : World) :
  happen Render (deliver (handleSend_until_await c c') (shown w)) =
  shown (dispatch (handleSend_until_await c c') w).
Proof.
  unfold deliver, dispatch, shown. cbn [rendered current pending happen].
  destruct (string_dec (trim (input (widget w))) EmptyString) as [He | Hne].
  - rewrite (until_await_noop c c' {| state := widget w; effects := [] |} He).
    destruct w as [[ms inp ty] fl]. reflexivity.
  - destruct (chat_url (trim (input (widget w)))) as [url|] eqn:Hu.
    + rewrite (until_await_run c c' {| state := widget w; effects := [] |} url Hne Hu).
      reflexivity.
    + rewrite (until_await_throws c c' {| state := widget w; effects := [] |} Hne Hu).
      cbn. rewrite <- app_assoc. reflexivity.
Qed.

(** A component that has rendered its state, an event and a render: this
    is one [step]. *)
Lemma rendered_step (ev : Event) (w : World) :
  happen Render (happen (Deliver ev) (shown w)) = shown (step ev w).
Proof.
  destruct ev as [v | key shiftKey c c' | c c' | o c]; cbn [happen step].
  - change (rendered (shown w)) with (widget w).
    destruct (input_disabled (widget w)); [reflexivity|].
    destruct w as [[ms inp ty] fl]. reflexivity.
  - change (rendered (shown w)) with (widget w).
    destruct (input_disabled (widget w)); [reflexivity|].
    unfold handleKeyDown. destruct (String.eqb key "Enter" && negb shiftKey).
    + apply deliver_until_await.
    + destruct w as [[ms inp ty] fl]. reflexivity.
  - change (rendered (shown w)) with (widget w).
    destruct (button_disabled (widget w)); [reflexivity|].
    apply deliver_until_await.
  - change (pending (shown w)) with (inflight w).
    destruct (inflight w) as [|url rest]; [reflexivity|].
    destruct (resume_effects o c) as (reply & logged & Hlog & _ & _ & Heq).
    unfold deliver, dispatch, shown. cbn [rendered current pending happen widget inflight].
    rewrite Heq. cbn [snd state effects app].
    destruct Hlog as [-> | [e ->]]; reflexivity.
Qed.

Lemma rendered_run (evs : list Event) (w : World) :
  play (rendered_after_each evs) (shown w) = shown (run evs w).
Proof.
  revert w. induction evs as [|ev evs IH]; intros w; [reflexivity|].
  cbn [rendered_after_each flat_map app play fold_left run].
  rewrite rendered_step. apply IH.
Qed.

Lemma mounted_shown : mounted = shown mount.
Proof. reflexivity. Qed.

(** C6, as stated, fails: [handleSend] does not test [isTyping], and until
    the next render the button is enabled and the handler holds the input
    it was rendered with. A second click before that render finds the flag
    true in the state, yet appends a second user message and issues a
    second request: two exchanges are in flight. *)
Lemma second_click_before_render_sends_again :
  let first :=
    play [Deliver (Change "hello"); Render; Deliver (Click (at_ms 1) (at_ms 2))] mounted in
  let second := happen (Deliver (Click (at_ms 3) (at_ms 4))) first in
  isTyping (current first) = true /\
  pending first = ["/api/chat?message=hello"] /\
  pending second = ["/api/chat?message=hello"; "/api/chat?message=hello"] /\
  map text (messages (current second)) = [Str "hello"; Str "hello"] /\
  map sender (messages (current second)) = [User; User] /\
  messages (current second) <> messages (current first).
Proof.
  cbv zeta. repeat split. intros H. discriminate H.
Qed.

(** C6, as the code has it. Once the component has rendered with
    [isTyping] true, both controls are disabled: a click, a key press or a
    change then issues no request and leaves the state, the transcript in
    it, untouched. When a render follows every event, the rendered state
    is the current one, at most one request is in flight, and while
    [isTyping] is true exactly one is, the input is empty, the three events
    change nothing and [handleSend] itself would return without effect. *)
Theorem second_send_rejected (evs : list Event) :
  let l := play (rendered_after_each evs) mounted in
  (forall l' : Component,
     isTyping (rendered l') = true ->
     (forall c c' : Clock, happen (Deliver (Click c c')) l' = l') /\
     (forall (key : string) (shiftKey : bool) (c c' : Clock),
        happen (Deliver (KeyDown key shiftKey c c')) l' = l') /\
     (forall v : string, happen (Deliver (Change v)) l' = l')) /\
  rendered l = current l /\
  (List.length (pending l) <= 1)%nat /\
  (isTyping (current l) = true ->
   List.length (pending l) = 1%nat /\
   input (current l) = EmptyString /\
   (forall c c' : Clock, happen (Deliver (Click c c')) l = l) /\
   (forall (key : string) (shiftKey : bool) (c c' : Clock),
      happen (Deliver (KeyDown key shiftKey c c')) l = l) /\
   (forall v : string, happen (Deliver (Change v)) l = l) /\
   (forall (c1 : Clock) (o : FetchOutcome) (c2 : Clock) (es : list Effect),
      handleSend c1 o c2 {| state := rendered l; effects := es |} =
      (inl tt, {| state := rendered l; effects := es |}))).
Proof.
  intros l.
  assert (Hdisabled : forall l' : Component,
            isTyping (rendered l') = true ->
            (forall c c' : Clock, happen (Deliver (Click c c')) l' = l') /\
            (forall (key : string) (shiftKey : bool) (c c' : Clock),
               happen (Deliver (KeyDown key shiftKey c c')) l' = l') /\
            (forall v : string, happen (Deliver (Change v)) l' = l')).
  { intros l' Hty. repeat split; intros; cbn [happen];
      unfold button_disabled, input_disabled; rewrite Hty, ?orb_true_r; reflexivity. }
  split; [exact Hdisabled|].
  assert (Hl : l = shown (run evs mount))
    by (subst l; rewrite mounted_shown; apply rendered_run).
  pose proof (reachable_settled_or_single (run evs mount)
                (reachable_run evs mount reachable_mount)) as Hinv.
  unfold settled_or_single in Hinv.
  rewrite Hl. clear Hl l. set (W := run evs mount) in *.
  split; [reflexivity|].
  change (pending (shown W)) with (inflight W).
  change (current (shown W)) with (widget W).
  change (rendered (shown W)) with (widget W).
  destruct (isTyping (widget W)) eqn:Hty.
  - destruct Hinv as [Hin [url Hfl]]. rewrite Hfl. split; [cbn; lia|].
    intros _. split; [reflexivity|]. split; [exact Hin|].
    destruct (Hdisabled (shown W) Hty) as (Hc & Hk & Hv).
    repeat split; [exact Hc | exact Hk | exact Hv |].
    intros c1 o c2 es. apply handleSend_blank_noop_run. cbn [state].
    rewrite Hin. reflexivity.
  - rewrite Hinv. split; [cbn; lia | discriminate].
Qed.

Lemma second_send_rejected_witness :
  let l := play (rendered_after_each [Change "hello"; Click (at_ms 1) (at_ms 2)]) mounted in
  isTyping (current l) = true /\
  pending l = ["/api/chat?message=hello"] /\
  happen (Deliver (Click (at_ms 3) (at_ms 4))) l = l /\
  happen (Deliver (KeyDown "Enter" false (at_ms 3) (at_ms 4))) l = l.
Proof.
  cbv zeta.
  destruct (second_send_rejected [Change "hello"; Click (at_ms 1) (at_ms 2)])
    as (_ & _ & _ & H).
  destruct (H eq_refl) as (_ & _ & Hclick & Hkey & _).
  split; [reflexivity|]. split; [reflexivity|].
  split; [apply Hclick | apply Hkey].
Defined.

(** What one happening appends: nothing, one message or two. *)
Lemma happen_messages (h : Happening) (l : Component) :
  exists new : list Message,
    messages (current (happen h l)) = messages (current l) ++ new /\
    (List.length new <= 2)%nat /\
    (forall m : Message, In m new -> sender m <> Typing).
Proof.
  destruct (happen_cases h l)
    as [-> | [(_ & ->) | [(v & _ & _ & ->) | [(ev & c & c' & url & _ & _ & _ & _ & _ & ->)
       | [(ev & c & c' & _ & _ & _ & _ & _ & ->)
       | (o & c & url & rest & reply & _ & _ & _ & Hs & ->)]]]]];
    cbn [current messages].
  - exists []. rewrite app_nil_r. repeat split; [cbn; lia | intros m []].
  - exists []. rewrite app_nil_r. repeat split; [cbn; lia | intros m []].
  - exists []. rewrite app_nil_r. repeat split; [cbn; lia | intros m []].
  - eexists. split; [reflexivity|]. split; [cbn; lia|].
    intros m [<- | []]. discriminate.
  - eexists. split; [reflexivity|]. split; [cbn; lia|].
    intros m [<- | [<- | []]]; discriminate.
  - exists [reply]. split; [reflexivity|]. split; [cbn; lia|].
    intros m [<- | []]. destruct Hs as [-> | ->]; discriminate.
Qed.


Lemma no_typing_stored (hs : list Happening) (l : Component) :
  (forall m : Message, In m (messages (current l)) -> sender m <> Typing) ->
  forall m : Message, In m (messages (current (play hs l))) -> sender m <> Typing.
Proof.
  revert l. induction hs as [|h hs IH]; intros l Hl; [exact Hl|].
  cbn [play fold_left]. apply IH.
  destruct (happen_messages h l) as (new & -> & _ & Hnew).
  intros m Hin. apply in_app_or in Hin. destruct Hin as [Hin | Hin]; auto.
Qed.

(** X7. When a render follows every event, the transcript is a sequence
    of exchanges, a [User] message followed by one [Bot] or [Error]
    message, the last exchange being open (a [User] message without reply)
    exactly when [isTyping] is true. With or without those renders, no
    stored message has the sender [Typing]. *)
Theorem transcript_alternates (evs : list Event) :
  let l := play (rendered_after_each evs) mounted in
  awaiting_after (map sender (messages (current l))) = Some (isTyping (current l)) /\
  (forall (hs : list Happening) (m : Message),
     In m (messages (current (play hs mounted))) -> sender m <> Typing).
Proof.
  intros l. split.
  - subst l. rewrite mounted_shown, rendered_run. cbn [shown current].
    apply (reachable_well_formed _ (reachable_run evs mount reachable_mount)).
  - intros hs. apply no_typing_stored. intros m [].
Qed.

(** X9. When a render follows every event and a reply is awaited, the last
    message of the transcript is the [User] message of the open exchange,
    and the one request in flight is the chat URL with its escaped text. *)
Theorem request_carries_last_user_message (evs : list Event)
    (Hawait : isTyping (current (play (rendered_after_each evs) mounted)) = true) :
  let l := play (rendered_after_each evs) mounted in
  exists (ms : list Message) (m : Message) (t escaped : string),
    messages (current l) = ms ++ [m] /\
    text m = Str t /\ sender m = User /\
    encodeURIComponent t = Some escaped /\
    pending l = [String.append "/api/chat?message=" escaped].
Proof.
  intros l. subst l. revert Hawait. rewrite mounted_shown, rendered_run.
  cbn [shown current pending]. intros Hawait.
  destruct (reachable_well_formed _ (reachable_run evs mount reachable_mount))
    as (_ & _ & Hlast).
  destruct (Hlast Hawait) as (ms & m & t & url & Hms & Ht & Hs & Hurl & Hfl).
  unfold chat_url in Hurl. destruct (encodeURIComponent t) as [escaped|] eqn:He;
    [|discriminate Hurl].
  injection Hurl as <-. exists ms, m, t, escaped. repeat split; assumption.
Qed.

Lemma request_carries_last_user_message_witness :
  let l := play (rendered_after_each
                   [Change "hello"; Click (at_ms 1) (at_ms 2);
                    Settle (served (Some "hello")) (at_ms 3);
                    Change " what is your name? ";
                    KeyDown "Enter" false (at_ms 4) (at_ms 5)]) mounted in
  pending l = ["/api/chat?message=what%20is%20your%20name%3F"] /\
  exists (ms : list Message) (m : Message) (t escaped : string),
    messages (current l) = ms ++ [m] /\
    text m = Str t /\ sender m = User /\
    encodeURIComponent t = Some escaped /\
    pending l = [String.append "/api/chat?message=" escaped].
Proof.
  cbv zeta. split; [reflexivity|].
  apply (request_carries_last_user_message
           [Change "hello"; Click (at_ms 1) (at_ms 2);
            Settle (served (Some "hello")) (at_ms 3);
            Change " what is your name? ";
            KeyDown "Enter" false (at_ms 4) (at_ms 5)]).
  reflexivity.
Defined.



(** X14. When a render follows every event, the send button is disabled
    exactly when the input is blank, which is exactly when a call of
    [handleSend] would do nothing; a click on the enabled button, on a text
    that [encodeURIComponent] accepts, puts exactly the request for the
    trimmed input in flight. *)
Theorem button_disabled_iff_nothing_to_send (evs : list Event) :
  let l := play (rendered_after_each evs) mounted in
  button_disabled (rendered l) = blank (input (rendered l)) /\
  (button_disabled (rendered l) = true <->
   forall (c1 : Clock) (o : FetchOutcome) (c2 : Clock) (es : list Effect),
     handleSend c1 o c2 {| state := rendered l; effects := es |} =
     (inl tt, {| state := rendered l; effects := es |})) /\
  (button_disabled (rendered l) = false ->
   forall (c c' : Clock) (escaped : string),
     encodeURIComponent (trim (input (rendered l))) = Some escaped ->
     pending (happen (Deliver (Click c c')) l) =
     [String.append "/api/chat?message=" escaped]).
Proof.
  intros l. subst l. rewrite mounted_shown, rendered_run.
  set (w := run evs mount). cbn [shown rendered].
  pose proof (reachable_settled_or_single w (reachable_run evs mount reachable_mount))
    as Hinv.
  unfold settled_or_single in Hinv.
  assert (Hb : button_disabled (widget w) = blank (input (widget w))).
  { unfold button_disabled. destruct (isTyping (widget w)).
    - destruct Hinv as [-> _]. reflexivity.
    - rewrite orb_false_r.
      destruct (blank (input (widget w))) eqn:Hbl.
      + apply trim_empty_iff in Hbl. rewrite Hbl. reflexivity.
      + apply blank_trimmed_empty in Hbl. apply truthy_string_true in Hbl.
        rewrite Hbl. reflexivity. }
  split; [exact Hb|]. split.
  - rewrite Hb. split.
    + intros Hbl c1 o c2 es. apply handleSend_blank_noop_run. cbn [state].
      apply trim_empty_iff. exact Hbl.
    + intros Hnoop.
      destruct (blank (input (widget w))) eqn:Hbl; [reflexivity | exfalso].
      apply blank_trimmed_empty in Hbl.
      specialize (Hnoop (at_ms 0) (FetchRejects NonError) (at_ms 0) []).
      destruct (handleSend_run (at_ms 0) (FetchRejects NonError) (at_ms 0)
                  {| state := widget w; effects := [] |} Hbl)
        as (reply & later & Hall & _).
      rewrite Hall in Hnoop.
      apply (f_equal (fun p => List.length (messages (state (snd p))))) in Hnoop.
      cbn in Hnoop. rewrite length_app in Hnoop. cbn in Hnoop. lia.
  - intros Hen c c' escaped Hesc. rewrite Hb in Hen. apply blank_trimmed_empty in Hen.
    assert (Hty : isTyping (widget w) = false).
    { destruct (isTyping (widget w)); [|reflexivity].
      destruct Hinv as [Hin _]. rewrite Hin in Hen. exfalso. apply Hen. reflexivity. }
    assert (Hurl : chat_url (trim (input (widget w))) =
                   Some (String.append "/api/chat?message=" escaped))
      by (unfold chat_url; rewrite Hesc; reflexivity).
    cbn [happen]. change (rendered (shown w)) with (widget w).
    unfold button_disabled. rewrite Hty.
    pose proof Hen as Ht. apply truthy_string_true in Ht. rewrite Ht. cbn [negb orb].
    unfold deliver. change (rendered (shown w)) with (widget w).
    rewrite (until_await_run c c' {| state := widget w; effects := [] |} _ Hen Hurl).
    cbn. rewrite Hty in Hinv. rewrite Hinv. reflexivity.
Qed.

Lemma button_disabled_iff_nothing_to_send_witness :
  let l := play (rendered_after_each [Change " hello"]) mounted in
  pending (happen (Deliver (Click (at_ms 1) (at_ms 2))) l) = ["/api/chat?message=hello"].
Proof.
  cbv zeta.
  apply (proj2 (proj2 (button_disabled_iff_nothing_to_send [Change " hello"])));
    reflexivity.
Defined.

End LiveFacts.

(** ** The request URL *)

Module RequestFacts.

Import Widget URI.

Lemma encode_Latin1 (c : ascii) (s rest : string) :
  encodeURIComponent s = Some rest ->
  exists enc : string,
    encodeURIComponent (String (Latin1 c) s) = Some enc /\
    every (fun u => unreserved u || is_char "%" u) enc =
      every (fun u => unreserved u || is_char "%" u) rest /\
    decodeURIComponent enc = option_map (String (Latin1 c)) (decodeURIComponent rest).
Proof.
  intros Hrest. cbn [encodeURIComponent]. rewrite Hrest. clear Hrest s.
  destruct c as [[] [] [] [] [] [] [] []]; eexists; repeat split.
Qed.

(** [encodeURIComponent] throws exactly on the strings that hold an
    unpaired surrogate. *)
Lemma encode_throws_iff (s : string) :
  encodeURIComponent s = None <-> wellFormed s = false.
Proof.
  induction s as [|[c | b9 b8 lo] s IH].
  - split; discriminate.
  - unfold wellFormed in *. cbn [every andb].
    destruct (encodeURIComponent s) as [rest|] eqn:He.
    + destruct (encode_Latin1 c s rest He) as (enc & -> & _).
      split; [discriminate|]. intros H. apply IH in H. discriminate H.
    + cbn [encodeURIComponent]. rewrite He. split; [intros _; apply IH; reflexivity|].
      reflexivity.
  - split; reflexivity.
Qed.

Lemma every_impl (p q : unit16 -> bool) (s : string) :
  (forall u : unit16, p u = true -> q u = true) -> every p s = true -> every q s = true.
Proof.
  intros Hpq. induction s as [|c s IH]; cbn; [reflexivity|].
  rewrite !andb_true_iff. intros [Hc Hs]. split; [apply Hpq; exact Hc | apply IH; exact Hs].
Qed.

Lemma encoded_alphabet (s escaped : string) :
  encodeURIComponent s = Some escaped ->
  every (fun u => unreserved u || is_char "%" u) escaped = true.
Proof.
  revert escaped. induction s as [|[c | b9 b8 lo] s IH]; intros escaped H.
  - injection H as <-. reflexivity.
  - destruct (encodeURIComponent s) as [rest|] eqn:He.
    + destruct (encode_Latin1 c s rest He) as (enc & Henc & Hev & _).
      rewrite Henc in H. injection H as <-. rewrite Hev. apply IH. reflexivity.
    + cbn [encodeURIComponent] in H. rewrite He in H. discriminate H.
  - discriminate H.
Qed.

Lemma decode_encoded (s escaped : string) :
  encodeURIComponent s = Some escaped -> decodeURIComponent escaped = Some s.
Proof.
  revert escaped. induction s as [|[c | b9 b8 lo] s IH]; intros escaped H.
  - injection H as <-. reflexivity.
  - destruct (encodeURIComponent s) as [rest|] eqn:He.
    + destruct (encode_Latin1 c s rest He) as (enc & Henc & _ & Hdec).
      rewrite Henc in H. injection H as <-. rewrite Hdec, (IH rest eq_refl). reflexivity.
    + cbn [encodeURIComponent] in H. rewrite He in H. discriminate H.
  - discriminate H.
Qed.

Lemma append_injective (p s1 s2 : string) :
  String.append p s1 = String.append p s2 -> s1 = s2.
Proof.
  induction p as [|u p IH]; cbn; intros H; [exact H|].
  injection H as H. apply IH. exact H.
Qed.

(** X15. The escaped text can be read back: [encodeURIComponent] returns
    on every string without unpaired surrogate, [decodeURIComponent] of
    what it returns is the string, and so two different trimmed texts
    never give the same request URL. *)
Theorem chat_url_round_trip (s1 s2 : string) :
  (wellFormed s1 = true -> exists escaped : string, encodeURIComponent s1 = Some escaped) /\
  (forall escaped : string,
     encodeURIComponent s1 = Some escaped -> decodeURIComponent escaped = Some s1) /\
  (forall url : string, chat_url s1 = Some url -> chat_url s2 = Some url -> s1 = s2).
Proof.
  split; [|split].
  - intros Hwf. destruct (encodeURIComponent s1) as [escaped|] eqn:He;
      [exists escaped; reflexivity|].
    apply encode_throws_iff in He. congruence.
  - apply decode_encoded.
  - unfold chat_url. intros url H1 H2.
    destruct (encodeURIComponent s1) as [e1|] eqn:He1; [|discriminate H1].
    destruct (encodeURIComponent s2) as [e2|] eqn:He2; [|discriminate H2].
    cbn [option_map] in H1, H2.
    assert (H : String.append "/api/chat?message=" e1 = String.append "/api/chat?message=" e2)
      by congruence.
    apply append_injective in H. subst e2.
    apply decode_encoded in He1. apply decode_encoded in He2. congruence.
Qed.

Lemma chat_url_round_trip_witness :
  decodeURIComponent "a%26message%3Derror" = Some "a&message=error".
Proof.
  exact (proj1 (proj2 (chat_url_round_trip "a&message=error" "a&message=error"))
           "a%26message%3Derror" eq_refl).
Defined.

(** X16. Whatever was typed, the request URL is the fixed path and
    parameter name followed by characters that are letters, digits, one of
    [- _ . ! ~ * ' ( )] or [%]: the text cannot add a second parameter, a
    fragment or a path, since it contains none of [& = # ? + /] nor a
    space. *)
Theorem chat_url_single_parameter (trimmedInput url : string)
    (Hurl : chat_url trimmedInput = Some url) :
  exists q : string,
    url = String.append "/api/chat?message=" q /\
    every (fun u => unreserved u || is_char "%" u) q = true /\
    every (fun u =>
             negb (existsb (fun c => is_char c u) ["&"; "="; "#"; "?"; "+"; "/"; " "]%char))
          q = true.
Proof.
  unfold chat_url in Hurl.
  destruct (encodeURIComponent trimmedInput) as [q|] eqn:He; [|discriminate Hurl].
  injection Hurl as <-. exists q. split; [reflexivity|].
  split; [apply (encoded_alphabet _ _ He)|].
  apply (every_impl (fun u => unreserved u || is_char "%" u));
    [|apply (encoded_alphabet _ _ He)].
  intros [c | b9 b8 lo].
  - destruct c as [[] [] [] [] [] [] [] []]; cbn; congruence.
  - intros _. reflexivity.
Qed.

Lemma chat_url_single_parameter_witness :
  exists q : string,
    "/api/chat?message=a%26b%3Dc" = String.append "/api/chat?message=" q /\
    every (fun u => unreserved u || is_char "%" u) q = true /\
    every (fun u =>
             negb (existsb (fun c => is_char c u) ["&"; "="; "#"; "?"; "+"; "/"; " "]%char))
          q = true.
Proof.
  exact (chat_url_single_parameter "a&b=c" "/api/chat?message=a%26b%3Dc" eq_refl).
Defined.

End RequestFacts.

(** ** Sends that end at once, bodies that do not parse *)

Module EdgeFacts.

Import Widget WidgetFacts RequestFacts.
Local Open Scope list_scope.

(** X19. A response whose body is not JSON is shown as an [Error]
    message with the message of the rejection of [response.json()] (the
    fallback text if the rejection is no [Error] instance), logged first,
    whatever the status of the response; the flag is cleared. *)
Theorem malformed_body_shown (st : Z) (e : Thrown) (c : Clock) (r : Run) :
  exists shown : Message,
    text shown =
      Str match e with
          | ErrorInstance m => m
          | NonError => "Sorry, something went wrong. Please try again."
          end /\
    sender shown = Error /\ id shown = now c /\
    handleSend_resume (FetchResolves {| status := st; body := JsonRejects e |}) c r =
    (inl tt,
     {| state := {| messages := messages (state r) ++ [shown];
                    input := input (state r);
                    isTyping := false |};
        effects := effects r ++ [ConsoleError e; AppendMessage shown; SetIsTyping false] |}).
Proof.
  exists (newMessage c (Str (catch_text e)) Error).
  split; [destruct e; reflexivity|]. split; [reflexivity|]. split; [reflexivity|].
  destruct r as [[ms inp ty] es].
  unfold handleSend_resume, try_finally, try_catch, try_block, on_response, on_catch,
    fetch, Widget.bind. cbn.
  destruct (ok {| status := st; body := JsonRejects e |}); cbn;
    rewrite <- !app_assoc; reflexivity.
Qed.



End EdgeFacts.

(** ** The two components together *)

Module ExchangeFacts.

Import Responder Widget WidgetFacts ResponderFacts ResponderCases TrimFacts.
Local Open Scope list_scope.

(** X17. A message sent by the Widget and answered by the Responder: the
    Responder never answers it "Missing message query"; the transcript
    gains the [User] message and then the [Error] message "Something went
    wrong" exactly when the trimmed text lower-cases to "error", and
    otherwise a [Bot] message with the reply of the Responder. The
    Widget's own fallback texts do not appear. *)
Theorem exchange_with_responder (c1 c2 : Clock) (r : Run) (url : string)
    (Hinput : trim (input (state r)) <> EmptyString)
    (Hurl : chat_url (trim (input (state r))) = Some url) :
  let t := trim (input (state r)) in
  let after := state (snd (handleSend c1 (served (Some t)) c2 r)) in
  exists sent reply : Message,
    messages after = messages (state r) ++ [sent; reply] /\
    text sent = Str t /\ sender sent = User /\
    status (GET (Some t)) <> 400 /\
    isTyping after = false /\
    (toLowerCase t = "error" ->
     text reply = Str "Something went wrong" /\ sender reply = Error) /\
    (toLowerCase t <> "error" ->
     sender reply = Bot /\
     exists text' : string,
       text reply = Str text' /\
       body (GET (Some t)) = JsonResolves {| error := Undefined; response := Str text' |} /\
       text' <> "Failed to get response" /\
       text' <> "Sorry, something went wrong. Please try again.").
Proof.
  intros t after.
  assert (Hrun : forall res data,
            GET (Some t) = res -> body res = JsonResolves data ->
            after =
            {| messages := messages (state r) ++
                 [newMessage c1 (Str t) User;
                  if ok res
                  then if truthy (error data)
                       then newMessage c2 (error data) Error
                       else newMessage c2 (response data) Bot
                  else newMessage c2 (Str (or_else (error data) "Failed to get response"))
                         Error];
               input := EmptyString; isTyping := false |}).
  { intros res data Hres Hbody. subst after. unfold served. rewrite Hres.
    rewrite handleSend_phases. unfold Widget.bind at 1.
    rewrite (until_await_run c1 c2 r url Hinput Hurl).
    destruct res as [st b]. cbn [body] in Hbody. subst b.
    unfold handleSend_resume, try_finally, try_catch, try_block, on_response, on_catch,
      Widget.bind. cbn.
    destruct (ok {| status := st; body := JsonResolves data |}); cbn;
      [destruct (truthy (error data)); cbn|]; rewrite <- !app_assoc; reflexivity. }
  assert (Hcases :
            (toLowerCase t = "error" /\
             GET (Some t) = NextResponse_json (failure "Something went wrong") (Some 500)) \/
            (toLowerCase t <> "error" /\
             exists text' : string,
               GET (Some t) = NextResponse_json (reply text') None /\
               text' <> "Failed to get response" /\
               text' <> "Sorry, something went wrong. Please try again.")).
  { pose proof Hinput as Ht. apply truthy_string_true in Ht. fold t in Ht.
    rewrite (GET_of_key t), toLowerCase_truthy, Ht. cbn [negb].
    destruct (eqb_spec (toLowerCase t) "error") as [He | He].
    - left. rewrite He. split; reflexivity.
    - right. split; [exact He|].
      destruct (String.eqb (toLowerCase t) "hello");
        [|destruct (String.eqb (toLowerCase t) "what is your name?")];
        eexists; (split; [reflexivity|]); split; discriminate. }
  destruct Hcases as [[He Hget] | [He (text' & Hget & Hf1 & Hf2)]];
    rewrite (Hrun _ _ Hget eq_refl), Hget; eexists _, _;
    (split; [reflexivity|]); cbn.
  - repeat split; try discriminate; congruence.
  - repeat split; try discriminate; try congruence.
    exists text'. repeat split; assumption.
Qed.

Lemma exchange_with_responder_witness :
  exists sent reply : Message,
    messages (state (snd (handleSend (at_ms 1) (served (Some "ERROR")) (at_ms 2)
                            (typed " ERROR ")))) = [sent; reply] /\
    text reply = Str "Something went wrong" /\ sender reply = Error.
Proof.
  destruct (exchange_with_responder (at_ms 1) (at_ms 2) (typed " ERROR ")
              "/api/chat?message=ERROR")
    as (sent & reply & Hm & _ & _ & _ & _ & Herr & _).
  - vm_compute; discriminate.
  - reflexivity.
  - exists sent, reply. split; [exact Hm|]. apply Herr. reflexivity.
Defined.

End ExchangeFacts.

(** ** The rendered rows *)

Module ViewFacts.

Import Widget ComponentFacts WidgetCases Transcript View Live LiveFacts.
Local Open Scope list_scope.


End ViewFacts.
